(** * Decision core of the honeypot agent: a shallow embedding and its properties

    Embedded sources:
    - [src/agent/behavior_analyzer.py]   (signal fusion engine)
    - [src/services/llm_load_control.py] (call admission gate)
    - [src/services/strategy_state.py]   (strategy classifier)
    - [src/services/engagement_policy.py] (engagement finalizer)

    Modelling conventions.
    - A Python [float] is a [pyfloat]: an exact rational, an infinity or NaN.
      The binary rounding error of a single operation is not modelled;
      comparisons, [min], [max] and [round] follow Python on NaN and the
      infinities.  Every quantity of the rule evaluator is a dyadic rational,
      so the model is exact there.  Where a property depends on the rounding
      of a subtraction of clock readings, [should_finalize_rounded] takes the
      rounding as an argument.
    - A Python [int] is a [Z]; a [str] is a [string] whose characters are read
      as 7-bit ASCII (a code above 127 is neither a word character, a digit
      nor white space).  Properties that rest on the character classes are
      stated of [ascii_only] strings, where these classes are Python's.
    - [time.time()] is an explicit argument [now : Q].
    - A [dict] with string keys is a [gmap string _]. *)

From Stdlib Require Import ZArith QArith Qround Lqa Lia Bool List String Ascii.
From stdpp Require Import gmap strings list fin_maps.
Import ListNotations.

Local Open Scope string_scope.

(* ===================================================================== *)
(** ** Python floats *)
(* ===================================================================== *)

Module PyFloat.

Inductive pyfloat : Type :=
| Fin (q : Q)
| PInf
| NInf
| NaN.

Definition Qltb (a b : Q) : bool := negb (Qle_bool b a).

Definition Qsgn (q : Q) : Z := Z.sgn (Qnum q).

(** [a < b] on floats: false as soon as one side is NaN. *)
Definition flt (a b : pyfloat) : bool :=
  match a, b with
  | NaN, _ | _, NaN => false
  | Fin x, Fin y => Qltb x y
  | NInf, NInf => false
  | NInf, _ => true
  | _, NInf => false
  | PInf, _ => false
  | Fin _, PInf => true
  end.

Definition fle (a b : pyfloat) : bool :=
  match a, b with
  | NaN, _ | _, NaN => false
  | Fin x, Fin y => Qle_bool x y
  | NInf, _ => true
  | _, PInf => true
  | _, NInf => false
  | PInf, _ => false
  end.

Definition fadd (a b : pyfloat) : pyfloat :=
  match a, b with
  | NaN, _ | _, NaN => NaN
  | Fin x, Fin y => Fin (x + y)
  | PInf, NInf | NInf, PInf => NaN
  | PInf, _ | _, PInf => PInf
  | NInf, _ | _, NInf => NInf
  end.

Definition finf_scaled (pos : bool) (s : Z) : pyfloat :=
  match s with
  | Z0 => NaN
  | Zpos _ => if pos then PInf else NInf
  | Zneg _ => if pos then NInf else PInf
  end.

Definition fsgn (a : pyfloat) : Z :=
  match a with
  | Fin x => Qsgn x
  | PInf => 1
  | NInf => -1
  | NaN => 0
  end.

Definition fmul (a b : pyfloat) : pyfloat :=
  match a, b with
  | NaN, _ | _, NaN => NaN
  | Fin x, Fin y => Fin (x * y)
  | PInf, _ => finf_scaled true (fsgn b)
  | NInf, _ => finf_scaled false (fsgn b)
  | _, PInf => finf_scaled true (fsgn a)
  | _, NInf => finf_scaled false (fsgn a)
  end.

(** [a / d] for a finite non-zero constant divisor [d], the only form of
    division in the embedded code ([score / 8.0]). *)
Definition fdiv_const (a : pyfloat) (d : Q) : pyfloat :=
  match a with
  | Fin x => Fin (x / d)
  | NaN => NaN
  | PInf => finf_scaled true (Qsgn d)
  | NInf => finf_scaled false (Qsgn d)
  end.

(** Python's [min(a, b)] and [max(a, b)]: the first argument is kept
    unless the second one compares strictly better. *)
Definition pymin (a b : pyfloat) : pyfloat := if flt b a then b else a.
Definition pymax (a b : pyfloat) : pyfloat := if flt a b then b else a.

(** Nearest integer, ties to even. *)
Definition Qround_half_even (q : Q) : Z :=
  let f := Qfloor q in
  match Qcompare (q - inject_Z f) (1 # 2) with
  | Lt => f
  | Gt => (f + 1)%Z
  | Eq => if Z.even f then f else (f + 1)%Z
  end.

(** [round(x, 2)]: a float that is not finite is returned unchanged. *)
Definition round2 (x : pyfloat) : pyfloat :=
  match x with
  | Fin q => Fin (Qred (Qround_half_even (q * 100) # 100))
  | _ => x
  end.

(** Truthiness of a float: zero is false, NaN is true. *)
Definition ftruthy (x : pyfloat) : bool :=
  match x with
  | Fin q => negb (Qeq_bool q 0)
  | _ => true
  end.

(** [float(n)] for an [int]: [OverflowError] (here [None]) when [n] would
    round to a magnitude above the largest double. *)
Definition DBL_OVERFLOW : Z := (2 ^ 1024 - 2 ^ 970)%Z.

Definition float_of_int (n : Z) : option pyfloat :=
  if (Z.abs n <? DBL_OVERFLOW)%Z then Some (Fin (inject_Z n)) else None.

(** [int(x)] for a finite float: truncation toward zero. *)
Definition int_of_Q (q : Q) : Z := Z.quot (Qnum q) (Zpos (Qden q)).

End PyFloat.
Export PyFloat.

(* ===================================================================== *)
(** ** Python strings *)
(* ===================================================================== *)

Module PyStr.

Definition code (c : ascii) : N := N_of_ascii c.

Definition in_range (lo hi : N) (c : ascii) : bool :=
  (lo <=? code c)%N && (code c <=? hi)%N.

(** White space as [str.isspace] and the pattern class [\s] see it. *)
Definition is_space (c : ascii) : bool :=
  in_range 9 13 c || in_range 28 32 c.

Definition is_digit (c : ascii) : bool := in_range 48 57 c.

Definition is_upper (c : ascii) : bool := in_range 65 90 c.

Definition is_lower (c : ascii) : bool := in_range 97 122 c.

(** Word characters of [\w] and [\b]. *)
Definition is_word (c : ascii) : bool :=
  is_digit c || is_upper c || is_lower c || (code c =? 95)%N.

Definition to_lower (c : ascii) : ascii :=
  if is_upper c then ascii_of_N (code c + 32) else c.

Fixpoint lstrip (s : string) : string :=
  match s with
  | String c r => if is_space c then lstrip r else s
  | EmptyString => EmptyString
  end.

Fixpoint rstrip (s : string) : string :=
  match s with
  | String c r =>
      match rstrip r with
      | EmptyString => if is_space c then EmptyString else String c EmptyString
      | r' => String c r'
      end
  | EmptyString => EmptyString
  end.

(** [s.strip()] *)
Definition strip (s : string) : string := rstrip (lstrip s).

(** [not s] for a string. *)
Definition str_empty (s : string) : bool :=
  match s with EmptyString => true | _ => false end.

(** Insertion of [s] before the first element that is not below it. *)
Fixpoint insert_sorted (s : string) (l : list string) : list string :=
  match l with
  | [] => [s]
  | x :: r => if String.leb s x then s :: l else x :: insert_sorted s r
  end.

(** [sorted(l)]: code-point order. *)
Definition sorted (l : list string) : list string :=
  fold_right insert_sorted [] l.

(** [sorted(set(l))]: the distinct elements of [l] in code-point order. *)
Definition sorted_set (l : list string) : list string :=
  sorted (remove_dups l).

(** [x in l] *)
Definition str_in (x : string) (l : list string) : bool :=
  existsb (String.eqb x) l.

End PyStr.
Export PyStr.

(* ===================================================================== *)
(** ** Regular expressions of [re], as far as the six patterns use them *)
(* ===================================================================== *)

Module Regex.

(** All six patterns are compiled under [(?i)]: a literal matches its
    letter in either case. *)
Inductive regex : Type :=
| Eps
| Chr (c : ascii)
| Digit
| NonSpace
| AnyChar
| WordB
| Seq (a b : regex)
| Alt (a b : regex)
| Star (a : regex).

Definition Plus (a : regex) : regex := Seq a (Star a).
Definition Opt (a : regex) : regex := Alt a Eps.

Fixpoint lit (s : string) : regex :=
  match s with
  | EmptyString => Eps
  | String c r => Seq (Chr c) (lit r)
  end.

Definition seqs (l : list regex) : regex := fold_right Seq Eps l.

Fixpoint alts (l : list regex) : regex :=
  match l with
  | [] => Eps
  | [a] => a
  | a :: r => Alt a (alts r)
  end.

Definition words (l : list string) : regex := alts (map lit l).

Definition word_opt (c : option ascii) : bool :=
  match c with Some x => is_word x | None => false end.

Definition head_opt (s : string) : option ascii :=
  match s with String c _ => Some c | EmptyString => None end.

(** [\b] holds between [prev] and the rest [s]. *)
Definition at_boundary (prev : option ascii) (s : string) : bool :=
  xorb (word_opt prev) (word_opt (head_opt s)).

Definition one_char (p : ascii -> bool) (s : string)
    (k : option ascii -> string -> bool) : bool :=
  match s with
  | String c r => p c && k (Some c) r
  | EmptyString => false
  end.

(** [matches r prev s k]: some match of [r] at the start of [s] (with
    [prev] the character before it) leaves a rest accepted by [k].
    A starred body must consume input on each round. *)
Fixpoint matches (r : regex) (prev : option ascii) (s : string)
    (k : option ascii -> string -> bool) {struct r} : bool :=
  match r with
  | Eps => k prev s
  | Chr c => one_char (fun x => Ascii.eqb (to_lower x) (to_lower c)) s k
  | Digit => one_char is_digit s k
  | NonSpace => one_char (fun x => negb (is_space x)) s k
  | AnyChar => one_char (fun x => negb (Ascii.eqb x "010"%char)) s k
  | WordB => at_boundary prev s && k prev s
  | Seq a b => matches a prev s (fun p' s' => matches b p' s' k)
  | Alt a b => matches a prev s k || matches b prev s k
  | Star a =>
      (fix star (fuel : nat) (prev : option ascii) (s : string) : bool :=
         k prev s
         || match fuel with
            | O => false
            | S fuel' =>
                matches a prev s
                  (fun p' s' =>
                     (String.length s' <? String.length s)%nat
                     && star fuel' p' s')
            end) (String.length s) prev s
  end.

Fixpoint search_from (r : regex) (prev : option ascii) (s : string) : bool :=
  matches r prev s (fun _ _ => true)
  || match s with
     | String c s' => search_from r (Some c) s'
     | EmptyString => false
     end.

(** [bool(pattern.search(text))] *)
Definition search (r : regex) (text : string) : bool :=
  search_from r None text.

End Regex.
Export Regex.

(* ===================================================================== *)
(** ** [src/agent/behavior_analyzer.py] *)
(* ===================================================================== *)

Definition URGENCY_PATTERN : regex :=
  seqs [WordB;
        alts [lit "urgent"; lit "immediately"; lit "right now";
              seqs [lit "within "; Plus Digit; lit " ";
                    words ["minute"; "minutes"; "hour"; "hours"]];
              lit "final warning"; lit "last warning"];
        WordB].

Definition AUTHORITY_PATTERN : regex :=
  seqs [WordB;
        words ["bank"; "sbi"; "security team"; "fraud team"; "customs";
               "police"; "rbi"; "compliance"; "official"];
        WordB].

Definition REWARD_PATTERN : regex :=
  seqs [WordB;
        words ["prize"; "lottery"; "reward"; "cashback"; "gift"; "bonus";
               "offer"];
        WordB].

Definition VERIFY_PATTERN : regex :=
  seqs [WordB;
        words ["verify"; "verification"; "otp"; "one time password"; "pin";
               "upi pin"; "cvv"; "account number"];
        WordB].

Definition LINK_PRESSURE_PATTERN : regex :=
  alts [seqs [WordB; words ["click"; "open"; "tap"; "visit"]; WordB;
              Star AnyChar;
              WordB; words ["link"; "url"; "site"; "website"]; WordB];
        seqs [WordB; lit "http"; Opt (Chr "s"); lit "://"; Plus NonSpace];
        seqs [lit "www"; Chr "."; Plus NonSpace]].

Definition ALT_CHANNEL_PATTERN : regex :=
  seqs [WordB;
        words ["call"; "whatsapp"; "telegram"; "email"; "contact"];
        WordB].

#[local] Set Warnings "-register-all".

(** Python values as [extract_json_object] can hand them over. *)
Inductive pyobj : Type :=
| ONone
| OBool (b : bool)
| OInt (n : Z)
| OFloat (f : pyfloat)
| OStr (s : string)
| OList (l : list pyobj)
| ODict (d : list (string * pyobj)).

Inductive exn : Type := TypeError | ValueError | OverflowError.

(** Outcome of a call that may raise. *)
Inductive result (A : Type) : Type :=
| Ok (a : A)
| Raise (e : exn).
Arguments Ok {A} a.
Arguments Raise {A} e.

(** What the analyzer takes from outside [src/]: the JSON extraction helper
    of [agent.llm_clients], and the two built-ins whose text formats are not
    modelled, [float] of a [str] ([None] stands for [ValueError]) and [str]
    of a value that is not a [str]. *)
Record runtime : Type := {
  extract_json_object : string -> pyobj;
  float_of_str : string -> option pyfloat;
  str_of_other : pyobj -> string
}.

(** An [OpenAIClient] or [GeminiClient]: its key and its [chat] method, which
    answers with raw text or nothing.  The sampling arguments of the calls
    ([temperature], [max_tokens], [response_format]) are constants. *)
Record llm_client : Type := {
  api_key : option string;
  chat : list (string * string) -> option string
}.

Record BehavioralAnalysisResult : Type := {
  score : pyfloat;
  confidence : pyfloat;
  indicators : list string;
  category_hint : option string
}.

Section BehaviorAnalyzer.

Variable rt : runtime.

(** [float(o)] *)
Definition py_float (o : pyobj) : result pyfloat :=
  match o with
  | ONone => Raise TypeError
  | OBool b => Ok (Fin (if b then 1 else 0))
  | OInt n =>
      match float_of_int n with
      | Some f => Ok f
      | None => Raise OverflowError
      end
  | OFloat f => Ok f
  | OStr s =>
      match float_of_str rt s with
      | Some f => Ok f
      | None => Raise ValueError
      end
  | OList _ | ODict _ => Raise TypeError
  end.

(** [str(o)] *)
Definition py_str (o : pyobj) : string :=
  match o with
  | OStr s => s
  | _ => str_of_other rt o
  end.

(** [bool(o)] *)
Definition truthy (o : pyobj) : bool :=
  match o with
  | ONone => false
  | OBool b => b
  | OInt n => negb (n =? 0)%Z
  | OFloat f => ftruthy f
  | OStr s => negb (str_empty s)
  | OList l => match l with [] => false | _ => true end
  | ODict d => match d with [] => false | _ => true end
  end.

Fixpoint dict_lookup (d : list (string * pyobj)) (k : string) : option pyobj :=
  match d with
  | [] => None
  | (k', v) :: r => if String.eqb k k' then Some v else dict_lookup r k
  end.

(** [d.get(k, dflt)] *)
Definition dict_get (d : list (string * pyobj)) (k : string) (dflt : pyobj) : pyobj :=
  match dict_lookup d k with
  | Some v => v
  | None => dflt
  end.

(** [c and c.api_key] for an optional client. *)
Definition has_key (c : option llm_client) : bool :=
  match c with
  | Some cl =>
      match api_key cl with
      | Some k => negb (str_empty k)
      | None => false
      end
  | None => false
  end.

(** [not raw] for an optional string. *)
Definition no_text (raw : option string) : bool :=
  match raw with
  | Some s => str_empty s
  | None => true
  end.

Definition call_chat (c : option llm_client) (messages : list (string * string))
    : option string :=
  match c with
  | Some cl => chat cl messages
  | None => None
  end.

Definition zero_result : BehavioralAnalysisResult :=
  {| score := Fin 0; confidence := Fin 0; indicators := []; category_hint := None |}.

(** One [if PATTERN.search(text): score += w; indicators.append(tag)]. *)
Definition rule_step (text : string) (pat : regex) (w : Q) (tag : string)
    (acc : pyfloat * list string) : pyfloat * list string :=
  if search pat text then (fadd (fst acc) (Fin w), (snd acc ++ [tag])%list) else acc.

Definition rule_category (inds : list string) : option string :=
  if str_in "reward_bait" inds then Some "LOTTERY_SCAM"
  else if str_in "external_link_pressure" inds then Some "PHISHING"
  else if str_in "verification_or_secret_request" inds
          && str_in "authority_impersonation" inds then Some "BANK_FRAUD"
  else None.

Definition _rule_based_analysis (text : string) : BehavioralAnalysisResult :=
  if str_empty text then zero_result
  else
    let acc := (Fin 0, []) in
    let acc := rule_step text URGENCY_PATTERN 2 "urgency" acc in
    let acc := rule_step text AUTHORITY_PATTERN 2 "authority_impersonation" acc in
    let acc := rule_step text REWARD_PATTERN (3 # 2) "reward_bait" acc in
    let acc := rule_step text VERIFY_PATTERN (5 # 2) "verification_or_secret_request" acc in
    let acc := rule_step text LINK_PRESSURE_PATTERN 2 "external_link_pressure" acc in
    let acc := rule_step text ALT_CHANNEL_PATTERN 1 "alternate_channel_push" acc in
    let '(score, indicators) := acc in
    let category := rule_category indicators in
    let confidence := pymin (Fin 1) (fdiv_const score 8) in
    {| score := round2 (pymin (Fin 10) score);
       confidence := round2 confidence;
       indicators := sorted_set indicators;
       category_hint := category |}.

Definition system_prompt : string :=
  "Analyze scam intent behavior in the message and return ONLY JSON with keys:
- riskScore: number 0-10
- confidence: number 0-1
- indicators: string[] (urgency, authority_impersonation, reward_bait, verification_or_secret_request, external_link_pressure, alternate_channel_push)
- categoryHint: string (UPI_FRAUD, PHISHING, BANK_FRAUD, LOTTERY_SCAM, REFUND_SCAM, GENERIC_SCAM)
No prose.".

(** The part of [_llm_analysis] after [payload] is known to be a [dict]. *)
Definition parse_payload (d : list (string * pyobj))
    : result (option BehavioralAnalysisResult) :=
  match py_float (dict_get d "riskScore" (OFloat (Fin 0))) with
  | Raise OverflowError => Raise OverflowError
  | Raise _ => Ok None
  | Ok score =>
      match py_float (dict_get d "confidence" (OFloat (Fin 0))) with
      | Raise OverflowError => Raise OverflowError
      | Raise _ => Ok None
      | Ok confidence =>
          let indicators_raw :=
            let v := dict_get d "indicators" ONone in
            if truthy v then v else OList [] in
          let indicators :=
            match indicators_raw with
            | OList l =>
                filter (fun s => negb (str_empty s))
                       (map (fun i => strip (py_str i)) l)
            | _ => []
            end in
          let category_hint := dict_get d "categoryHint" ONone in
          let category_hint :=
            if truthy category_hint then Some (strip (py_str category_hint))
            else None in
          Ok (Some
            {| score := round2 (pymax (Fin 0) (pymin (Fin 10) score));
               confidence := round2 (pymax (Fin 0) (pymin (Fin 1) confidence));
               indicators := sorted_set indicators;
               category_hint := category_hint |})
      end
  end.

Definition _llm_analysis (text : string) (openai gemini : option llm_client)
    : result (option BehavioralAnalysisResult) :=
  if str_empty text then Ok None
  else if negb (has_key openai || has_key gemini) then Ok None
  else
    let messages := [("system", system_prompt); ("user", text)] in
    let raw := if has_key openai then call_chat openai messages else None in
    let raw :=
      if no_text raw && has_key gemini then call_chat gemini messages
      else raw in
    match raw with
    | None => Ok None
    | Some txt =>
        if str_empty txt then Ok None
        else
          match extract_json_object rt txt with
          | ODict d => parse_payload d
          | _ => Ok None
          end
    end.

(** [a or b] on optional strings. *)
Definition or_else (a b : option string) : option string :=
  match a with
  | Some s => if str_empty s then b else a
  | None => b
  end.

(** The fusion branch of [analyze]. *)
Definition fuse (rule_result llm_result : BehavioralAnalysisResult)
    : BehavioralAnalysisResult :=
  let combined_score :=
    fadd (fmul (score rule_result) (Fin (6 # 10)))
         (fmul (score llm_result) (Fin (4 # 10))) in
  let combined_confidence :=
    pymax (confidence rule_result) (confidence llm_result) in
  let combined_indicators :=
    sorted_set (indicators rule_result ++ indicators llm_result)%list in
  let category_hint :=
    or_else (category_hint llm_result) (category_hint rule_result) in
  {| score := round2 (pymin (Fin 10) combined_score);
     confidence := round2 (pymin (Fin 1) combined_confidence);
     indicators := combined_indicators;
     category_hint := category_hint |}.

Definition analyze (text : string) (openai gemini : option llm_client)
    : result BehavioralAnalysisResult :=
  let rule_result := _rule_based_analysis text in
  match _llm_analysis text openai gemini with
  | Raise e => Raise e
  | Ok None => Ok rule_result
  | Ok (Some llm_result) => Ok (fuse rule_result llm_result)
  end.

End BehaviorAnalyzer.

(* ===================================================================== *)
(** ** [src/services/llm_load_control.py] *)
(* ===================================================================== *)

Record LLMGateSnapshot : Type := {
  enabled : bool;
  limits : gmap string Z;
  in_window_calls : gmap string Z;
  dropped_calls : gmap string Z
}.

Record LLMCallGate : Type := {
  _enabled : bool;
  _global_limit : Z;
  _stage_limits : gmap string Z;
  _behavior_sample_n : Z;
  _calls : gmap string (list Q);
  _dropped : gmap string Z
}.

Definition _WINDOW_SECONDS : Q := 60.

(** [LLMCallGate.__init__] *)
Definition new_gate (enabled : bool)
    (global_rpm_limit reply_rpm_limit behavior_rpm_limit extraction_rpm_limit
     behavior_sample_every_n_scam_messages : Z) : LLMCallGate :=
  {| _enabled := enabled;
     _global_limit := Z.max 1 global_rpm_limit;
     _stage_limits :=
       {[ "reply" := Z.max 1 reply_rpm_limit;
          "behavior" := Z.max 1 behavior_rpm_limit;
          "extraction" := Z.max 1 extraction_rpm_limit ]};
     _behavior_sample_n := Z.max 1 behavior_sample_every_n_scam_messages;
     _calls := {[ "global" := []; "reply" := []; "behavior" := [];
                  "extraction" := [] ]};
     _dropped := {[ "reply" := 0%Z; "behavior" := 0%Z; "extraction" := 0%Z ]} |}.

(** [while queue and queue[0] < cutoff: queue.popleft()] *)
Fixpoint pop_stale (cutoff : Q) (queue : list Q) : list Q :=
  match queue with
  | t :: rest => if Qltb t cutoff then pop_stale cutoff rest else queue
  | [] => []
  end.

Definition _prune (queue : list Q) (now : Q) : list Q :=
  let cutoff := (now - _WINDOW_SECONDS)%Q in
  pop_stale cutoff queue.

Definition _behavior_sampling_allows (self : LLMCallGate)
    (scammer_message_index : Z) : bool :=
  if (_behavior_sample_n self <=? 1)%Z then true
  else if (scammer_message_index <=? 1)%Z then true
  else ((scammer_message_index - 1) mod _behavior_sample_n self =? 0)%Z.

Definition set_calls (self : LLMCallGate) (c : gmap string (list Q)) : LLMCallGate :=
  {| _enabled := _enabled self;
     _global_limit := _global_limit self;
     _stage_limits := _stage_limits self;
     _behavior_sample_n := _behavior_sample_n self;
     _calls := c;
     _dropped := _dropped self |}.

Definition set_dropped (self : LLMCallGate) (d : gmap string Z) : LLMCallGate :=
  {| _enabled := _enabled self;
     _global_limit := _global_limit self;
     _stage_limits := _stage_limits self;
     _behavior_sample_n := _behavior_sample_n self;
     _calls := _calls self;
     _dropped := d |}.

(** [self._dropped[stage] += 1] *)
Definition count_drop (self : LLMCallGate) (stage : string) : LLMCallGate :=
  set_dropped self (<[stage := ((_dropped self !!! stage) + 1)%Z]> (_dropped self)).

(** [allow(stage, scammer_message_index)] at clock reading [now]: the answer
    and the gate afterwards.  The two queues are pruned in place, so they
    stay pruned on the refusing paths too.  A stage that has a limit is
    never ["global"] (the constructor's table has the three stages only), so
    the global queue and the stage queue are two objects. *)
Definition allow (self : LLMCallGate) (stage : string)
    (scammer_message_index : Z) (now : Q) : bool * LLMCallGate :=
  match _stage_limits self !! stage with
  | None => (false, self)
  | Some stage_limit =>
      if negb (_enabled self) then (true, self)
      else if String.eqb stage "behavior"
              && negb (_behavior_sampling_allows self (Z.max 0 scammer_message_index))
      then (false, self)
      else
        let global_queue := _prune (_calls self !!! "global") now in
        let stage_queue := _prune (_calls self !!! stage) now in
        let self := set_calls self
                      (<[stage := stage_queue]>
                         (<["global" := global_queue]> (_calls self))) in
        if (_global_limit self <=? Z.of_nat (length global_queue))%Z
        then (false, count_drop self stage)
        else if (stage_limit <=? Z.of_nat (length stage_queue))%Z
        then (false, count_drop self stage)
        else
          (true,
           set_calls self
             (<[stage := (stage_queue ++ [now])%list]>
                (<["global" := (global_queue ++ [now])%list]> (_calls self))))
  end.

Definition queue_len (self : LLMCallGate) (name : string) : Z :=
  Z.of_nat (length (_calls self !!! name)).

(** [snapshot()] at clock reading [now]: the view and the gate afterwards. *)
Definition snapshot (self : LLMCallGate) (now : Q) : LLMGateSnapshot * LLMCallGate :=
  let self := set_calls self ((fun queue => _prune queue now) <$> _calls self) in
  ({| enabled := _enabled self;
      limits :=
        {[ "globalRpm" := _global_limit self;
           "replyRpm" := _stage_limits self !!! "reply";
           "behaviorRpm" := _stage_limits self !!! "behavior";
           "extractionRpm" := _stage_limits self !!! "extraction" ]};
      in_window_calls :=
        {[ "global" := queue_len self "global";
           "reply" := queue_len self "reply";
           "behavior" := queue_len self "behavior";
           "extraction" := queue_len self "extraction" ]};
      dropped_calls := _dropped self |},
   self).

(** Calls on one gate, each with the clock reading it obtains. *)
Inductive gate_call : Type :=
| CallAllow (stage : string) (scammer_message_index : Z) (now : Q)
| CallSnapshot (now : Q).

Inductive gate_answer : Type :=
| Answered (b : bool)
| Reported (s : LLMGateSnapshot).

Definition call_time (c : gate_call) : Q :=
  match c with
  | CallAllow _ _ now => now
  | CallSnapshot now => now
  end.

Definition do_call (self : LLMCallGate) (c : gate_call) : gate_answer * LLMCallGate :=
  match c with
  | CallAllow stage idx now =>
      let '(b, self') := allow self stage idx now in (Answered b, self')
  | CallSnapshot now =>
      let '(s, self') := snapshot self now in (Reported s, self')
  end.

(** A sequence of calls, oldest first: the answers and the final gate. *)
Fixpoint run_calls (self : LLMCallGate) (cs : list gate_call)
    : list gate_answer * LLMCallGate :=
  match cs with
  | [] => ([], self)
  | c :: rest =>
      let '(a, self') := do_call self c in
      let '(answers, final) := run_calls self' rest in
      (a :: answers, final)
  end.

(** Clock readings never go back. *)
Fixpoint clock_monotone (last : Q) (cs : list gate_call) : Prop :=
  match cs with
  | [] => True
  | c :: rest => (last <= call_time c)%Q /\ clock_monotone (call_time c) rest
  end.

(* ===================================================================== *)
(** ** The session record read by the two policies *)
(* ===================================================================== *)

(** Modelled from the spec: the detected-intelligence view of
    [models.session], which is not among the sources.  It exposes the count
    of actionable categories, the high-value flag and the captured payment
    identifiers. *)
Record Intel : Type := {
  actionable_category_count : Z;
  has_high_value : bool;
  upi_ids : list string;
  crypto_wallets : list string
}.

(** Modelled from the spec: [models.session.SessionState], which is not
    among the sources, with the fields the two policies read. *)
Record SessionState : Type := {
  finalized : bool;
  scam_detected : bool;
  intel : Intel;
  first_scam_timestamp : option Q;
  scammer_messages : Z;
  agent_turns : Z;
  rolling_scam_score : pyfloat
}.

(* ===================================================================== *)
(** ** [src/services/strategy_state.py] *)
(* ===================================================================== *)

Definition STRATEGY_NEUTRAL : string := "Neutral".
Definition STRATEGY_SUSPICIOUS : string := "Suspicious".
Definition STRATEGY_EXTRACTION_MODE : string := "Extraction Mode".
Definition STRATEGY_HIGH_CONFIDENCE : string := "High Confidence Scam".
Definition STRATEGY_HARVEST_MODE : string := "Intelligence Harvest Mode".

(** [x if o is None else o] *)
Definition if_none {A : Type} (x : A) (o : option A) : A :=
  match o with
  | None => x
  | Some v => v
  end.

Definition infer_strategy_state (state : SessionState)
    (rolling_score : option pyfloat) (scam_detected_arg : option bool)
    (actionable_count : option Z) (agent_turns_arg : option Z) : string :=
  let score := if_none (rolling_scam_score state) rolling_score in
  let actionable := if_none (actionable_category_count (intel state)) actionable_count in
  let detected := if_none (scam_detected state) scam_detected_arg in
  let turns := if_none (agent_turns state) agent_turns_arg in
  if flt score (Fin 3) && negb detected then STRATEGY_NEUTRAL
  else if flt score (Fin 6) && negb detected then STRATEGY_SUSPICIOUS
  else if flt score (Fin 10) then STRATEGY_EXTRACTION_MODE
  else if (3 <=? actionable)%Z || (5 <=? turns)%Z then STRATEGY_HARVEST_MODE
  else STRATEGY_HIGH_CONFIDENCE.

(** Position of a tier in the order of the glossary, least aggressive
    first; a string that names no tier has none. *)
Definition tier_rank (tier : string) : option nat :=
  if String.eqb tier "Neutral" then Some 0
  else if String.eqb tier "Suspicious" then Some 1
  else if String.eqb tier "Extraction Mode" then Some 2
  else if String.eqb tier "Intelligence Harvest Mode" then Some 3
  else if String.eqb tier "High Confidence Scam" then Some 4
  else None.

(* ===================================================================== *)
(** ** [src/services/engagement_policy.py] *)
(* ===================================================================== *)

(** [should_finalize(state)] at clock reading [now]. *)
Definition should_finalize (state : SessionState) (now : Q) : bool :=
  if finalized state || negb (scam_detected state) then false
  else
    let actionable_categories := actionable_category_count (intel state) in
    let has_high_value := has_high_value (intel state) in
    let has_payment_id :=
      match upi_ids (intel state) with
      | [] => match crypto_wallets (intel state) with [] => false | _ => true end
      | _ => true
      end in
    let elapsed_seconds :=
      match first_scam_timestamp state with
      | Some t => int_of_Q (now - t)
      | None => 0%Z
      end in
    let total_messages := (scammer_messages state + agent_turns state)%Z in
    if (12 <=? agent_turns state)%Z then true
    else if has_payment_id
            && (2 <=? actionable_categories)%Z
            && (5 <=? agent_turns state)%Z
            && (10 <=? total_messages)%Z
            && (60 <=? elapsed_seconds)%Z then true
    else if (3 <=? actionable_categories)%Z
            && (10 <=? agent_turns state)%Z
            && (60 <=? elapsed_seconds)%Z then true
    else if (12 <=? scammer_messages state)%Z
            && (10 <=? agent_turns state)%Z
            && (60 <=? elapsed_seconds)%Z then true
    else false.

(** [should_finalize(state)] with the rounding of the float subtraction
    [time.time() - state.first_scam_timestamp] written out: [rnd] takes the
    exact difference of the two doubles to the double the subtraction
    returns.  [should_finalize] is the case of a difference that needs no
    rounding, as between two readings of the same clock. *)
Definition should_finalize_rounded (rnd : Q -> Q) (state : SessionState) (now : Q)
    : bool :=
  if finalized state || negb (scam_detected state) then false
  else
    let actionable_categories := actionable_category_count (intel state) in
    let has_high_value := has_high_value (intel state) in
    let has_payment_id :=
      match upi_ids (intel state) with
      | [] => match crypto_wallets (intel state) with [] => false | _ => true end
      | _ => true
      end in
    let elapsed_seconds :=
      match first_scam_timestamp state with
      | Some t => int_of_Q (rnd (now - t)%Q)
      | None => 0%Z
      end in
    let total_messages := (scammer_messages state + agent_turns state)%Z in
    if (12 <=? agent_turns state)%Z then true
    else if has_payment_id
            && (2 <=? actionable_categories)%Z
            && (5 <=? agent_turns state)%Z
            && (10 <=? total_messages)%Z
            && (60 <=? elapsed_seconds)%Z then true
    else if (3 <=? actionable_categories)%Z
            && (10 <=? agent_turns state)%Z
            && (60 <=? elapsed_seconds)%Z then true
    else if (12 <=? scammer_messages state)%Z
            && (10 <=? agent_turns state)%Z
            && (60 <=? elapsed_seconds)%Z then true
    else false.

(* ===================================================================== *)
(** ** Vocabulary of the statements *)
(* ===================================================================== *)

(** A finite float between two rationals. *)
Definition within (lo hi : Q) (x : pyfloat) : Prop :=
  exists q, x = Fin q /\ (lo <= q)%Q /\ (q <= hi)%Q.

(** [clamp(x, lo, hi)], written with Python's [max] and [min]. *)
Definition clamp (x lo hi : pyfloat) : pyfloat := pymax lo (pymin hi x).

(** The ranges and the absence of duplicates promised for a result. *)
Definition result_bounded (r : BehavioralAnalysisResult) : Prop :=
  within 0 10 (score r) /\ within 0 1 (confidence r) /\ NoDup (indicators r).

(** The six indicator tags of the glossary. *)
Definition INDICATOR_VOCABULARY : list string :=
  ["urgency"; "authority_impersonation"; "reward_bait";
   "verification_or_secret_request"; "external_link_pressure";
   "alternate_channel_push"].

(** A category is present when it is a non-empty string. *)
Definition category_present (c : option string) : Prop :=
  exists s, c = Some s /\ s <> "".

(** The three stages of the gate. *)
Definition STAGES : list string := ["reply"; "behavior"; "extraction"].

(** What the six steps keep true of the running score and tags. *)
Definition acc_ok (acc : pyfloat * list string) : Prop :=
  (exists q, fst acc = Fin q /\ (0 <= q)%Q)
  /\ Forall (fun tag => tag ∈ INDICATOR_VOCABULARY) (snd acc).

Definition QUEUES : list string := ["global"; "reply"; "behavior"; "extraction"].

(** The shape [__init__] gives a gate and every call keeps. *)
Definition gate_wf (self : LLMCallGate) : Prop :=
  (1 <= _global_limit self)%Z
  /\ (1 <= _behavior_sample_n self)%Z
  /\ dom (_stage_limits self) = (list_to_set STAGES : gset string)
  /\ dom (_calls self) = (list_to_set QUEUES : gset string)
  /\ dom (_dropped self) = (list_to_set STAGES : gset string).

(** The stamps of [l] at or after [cutoff]. *)
Definition in_window (cutoff : Q) (l : list Q) : list Q :=
  List.filter (fun t => Qle_bool cutoff t) l.

(** Whether an admitted call for [stage] is recorded in queue [name]. *)
Definition feeds (name stage : string) : bool :=
  String.eqb name "global" || String.eqb name stage.

(** The clock readings of the [allow] calls answered [true], for the stages
    selected by [sel], oldest first. *)
Fixpoint admitted (sel : string -> bool) (cs : list gate_call)
    (answers : list gate_answer) : list Q :=
  match cs, answers with
  | CallAllow stage _ now :: cs', Answered true :: answers' =>
      if sel stage then now :: admitted sel cs' answers'
      else admitted sel cs' answers'
  | _ :: cs', _ :: answers' => admitted sel cs' answers'
  | _, _ => []
  end.

(** The calls admitted at or after [cutoff], whatever their stage. *)
Definition admitted_since (cutoff : Q) (cs : list gate_call)
    (answers : list gate_answer) : list Q :=
  in_window cutoff (admitted (fun _ => true) cs answers).

(** The clock reading of the last call, [t] if there is none. *)
Fixpoint last_time (t : Q) (cs : list gate_call) : Q :=
  match cs with
  | [] => t
  | c :: rest => last_time (call_time c) rest
  end.

Fixpoint nondecreasing (l : list Q) : Prop :=
  match l with
  | [] => True
  | x :: r => Forall (Qle x) r /\ nondecreasing r
  end.

(** Queue [q] agrees with the history [hist] on everything a prune at or
    after [last] can still see. *)
Definition tracks (q hist : list Q) (last : Q) : Prop :=
  forall c, (last - _WINDOW_SECONDS <= c)%Q -> pop_stale c q = pop_stale c hist.

(** The queues of [self] once [allow] has pruned the global queue and the
    queue of [stage]. *)
Definition pruned_calls (self : LLMCallGate) (stage : string) (now : Q)
    : gmap string (list Q) :=
  <[stage := _prune (_calls self !!! stage) now]>
    (<["global" := _prune (_calls self !!! "global") now]> (_calls self)).

(** The queues once [now] has been appended to both. *)
Definition appended_calls (self : LLMCallGate) (stage : string) (now : Q)
    : gmap string (list Q) :=
  <[stage := (_prune (_calls self !!! stage) now ++ [now])%list]>
    (<["global" := (_prune (_calls self !!! "global") now ++ [now])%list]>
       (pruned_calls self stage now)).

(** [stage] passes the sampling pre-filter. *)
Definition passes_sampling (self : LLMCallGate) (stage : string) (idx : Z) : bool :=
  negb (String.eqb stage "behavior"
        && negb (_behavior_sampling_allows self (Z.max 0 idx))).

(** The five ways through [allow]. *)
Inductive allow_outcome (self : LLMCallGate) (stage : string) (idx : Z) (now : Q)
    : bool -> LLMCallGate -> Prop :=
| AllowUnknown :
    _stage_limits self !! stage = None ->
    allow_outcome self stage idx now false self
| AllowDisabled (limit : Z) :
    _stage_limits self !! stage = Some limit ->
    _enabled self = false ->
    allow_outcome self stage idx now true self
| AllowSampledOut (limit : Z) :
    _stage_limits self !! stage = Some limit ->
    _enabled self = true ->
    passes_sampling self stage idx = false ->
    allow_outcome self stage idx now false self
| AllowDropped (limit : Z) :
    _stage_limits self !! stage = Some limit ->
    _enabled self = true ->
    passes_sampling self stage idx = true ->
    (_global_limit self <= Z.of_nat (length (_prune (_calls self !!! "global") now))
     \/ limit <= Z.of_nat (length (_prune (_calls self !!! stage) now)))%Z ->
    allow_outcome self stage idx now false
      (count_drop (set_calls self (pruned_calls self stage now)) stage)
| AllowAdmitted (limit : Z) :
    _stage_limits self !! stage = Some limit ->
    _enabled self = true ->
    passes_sampling self stage idx = true ->
    (Z.of_nat (length (_prune (_calls self !!! "global") now)) < _global_limit self)%Z ->
    (Z.of_nat (length (_prune (_calls self !!! stage) now)) < limit)%Z ->
    allow_outcome self stage idx now true
      (set_calls self (appended_calls self stage now)).

(** No call changes the configuration. *)
Definition same_config (a b : LLMCallGate) : Prop :=
  _enabled a = _enabled b
  /\ _global_limit a = _global_limit b
  /\ _stage_limits a = _stage_limits b
  /\ _behavior_sample_n a = _behavior_sample_n b.

(** The queues follow the histories [hist] of admitted stamps; the histories
    are in clock order and not after [last]; every stamp of the global
    history is a stamp of exactly one stage history. *)
Definition gate_inv (self : LLMCallGate) (hist : string -> list Q) (last : Q) : Prop :=
  (forall name, name ∈ QUEUES -> tracks (_calls self !!! name) (hist name) last)
  /\ (forall name, name ∈ QUEUES ->
        nondecreasing (hist name) /\ Forall (fun t => (t <= last)%Q) (hist name))
  /\ (forall c,
        length (in_window c (hist "global")) =
        (length (in_window c (hist "reply"))
         + length (in_window c (hist "behavior"))
         + length (in_window c (hist "extraction")))%nat).

(** The histories after a call for [stage] at [now] answered [b] by an
    enabled gate. *)
Definition record (hist : string -> list Q) (b : bool) (stage : string) (now : Q)
    : string -> list Q :=
  fun name => (hist name ++ (if b && feeds name stage then [now] else []))%list.

(** The in-window counts of a snapshot add up. *)
Definition snapshot_adds_up (s : LLMGateSnapshot) : Prop :=
  exists g r b e : Z,
    in_window_calls s !! "global" = Some g
    /\ in_window_calls s !! "reply" = Some r
    /\ in_window_calls s !! "behavior" = Some b
    /\ in_window_calls s !! "extraction" = Some e
    /\ g = (r + b + e)%Z.

Definition answer_adds_up (a : gate_answer) : Prop :=
  match a with
  | Answered _ => True
  | Reported s => snapshot_adds_up s
  end.

(* ===================================================================== *)
(** ** Sample inputs *)
(* ===================================================================== *)

(** A session at the hard cap, with nothing else to its name. *)
Definition sample_session : SessionState :=
  {| finalized := false;
     scam_detected := true;
     intel := {| actionable_category_count := 0; has_high_value := false;
                 upi_ids := []; crypto_wallets := [] |};
     first_scam_timestamp := None;
     scammer_messages := 0;
     agent_turns := 12;
     rolling_scam_score := Fin 0 |}.

Definition example_text : string :=
  "URGENT: Your SBI account is blocked. Verify your UPI PIN immediately by clicking http://example.com".

(** A runtime whose extraction helper finds [payload] in any answer. *)
Definition fixed_runtime (payload : pyobj) : runtime :=
  {| extract_json_object := fun _ => payload;
     float_of_str := fun _ => None;
     str_of_other := fun _ => "object" |}.

(** A client with a key that answers every request with [reply]. *)
Definition keyed_client (reply : string) : llm_client :=
  {| api_key := Some "key"; chat := fun _ => Some reply |}.

(** A payload with a NaN score, a confidence out of range, a repeated tag
    and a tag outside the vocabulary. *)
Definition odd_payload : pyobj :=
  ODict [("riskScore", OFloat NaN);
         ("confidence", OInt 3);
         ("indicators", OList [OStr "urgency"; OStr " urgency "; OStr "made_up"]);
         ("categoryHint", OStr "UPI_FRAUD")].

(** A gate with ceiling 1, sampling interval 3 and one admitted reply call. *)
Definition saturated_calls : list gate_call := [CallAllow "reply" 0 0].

Definition saturated_gate : LLMCallGate :=
  snd (run_calls (new_gate true 1 5 5 5 3) saturated_calls).

(** Three admissions, then two snapshots; the first admission has left the
    window when the snapshots are taken. *)
Definition sample_calls : list gate_call :=
  [CallAllow "reply" 0 0; CallAllow "behavior" 1 10; CallAllow "extraction" 0 20;
   CallSnapshot 65; CallSnapshot 75].

Definition sample_snapshot : LLMGateSnapshot :=
  fst (snapshot (snd (run_calls (new_gate true 5 5 5 5 1) (take 3 sample_calls))) 65).

(* ===================================================================== *)
(** ** Vocabulary of the further properties *)
(* ===================================================================== *)

(** The two messages of a judgment request for [text]. *)
Definition request_for (text : string) : list (string * string) :=
  [("system", system_prompt); ("user", text)].

(** [float(v)] raises one of the two exceptions [_llm_analysis] catches. *)
Definition uncoercible (rt : runtime) (v : pyobj) : Prop :=
  py_float rt v = Raise TypeError \/ py_float rt v = Raise ValueError.

(** A payload [_llm_analysis] discards: not a [dict], or a [dict] whose
    score does not coerce, or whose score coerces and whose confidence does
    not. *)
Definition malformed (rt : runtime) (payload : pyobj) : Prop :=
  match payload with
  | ODict d =>
      uncoercible rt (dict_get d "riskScore" (OFloat (Fin 0)))
      \/ ((exists s, py_float rt (dict_get d "riskScore" (OFloat (Fin 0))) = Ok s)
          /\ uncoercible rt (dict_get d "confidence" (OFloat (Fin 0))))
  | _ => True
  end.

(** The characters of 7-bit ASCII, and the strings made of them: the texts
    on which the character classes of this file are those of Python. *)
Definition is_ascii (c : ascii) : bool := (code c <? 128)%N.

Fixpoint ascii_only (s : string) : bool :=
  match s with
  | EmptyString => true
  | String c r => is_ascii c && ascii_only r
  end.

(** [text.lower()] on ASCII text. *)
Fixpoint lower (s : string) : string :=
  match s with
  | EmptyString => EmptyString
  | String c r => String (to_lower c) (lower r)
  end.

(** The judgment result that [odd_payload] gives. *)
Definition odd_judgment : BehavioralAnalysisResult :=
  {| score := Fin 10; confidence := Fin 1;
     indicators := ["made_up"; "urgency"];
     category_hint := Some "UPI_FRAUD" |}.

(** The rule result as a function of the six searches: the steps of
    [_rule_based_analysis] with the outcome of each search given. *)
Definition flag_step (found : bool) (w : Q) (tag : string)
    (acc : pyfloat * list string) : pyfloat * list string :=
  if found then (fadd (fst acc) (Fin w), (snd acc ++ [tag])%list) else acc.

Definition rule_of_flags (urgency authority reward verify link channel : bool)
    : BehavioralAnalysisResult :=
  let acc := (Fin 0, []) in
  let acc := flag_step urgency 2 "urgency" acc in
  let acc := flag_step authority 2 "authority_impersonation" acc in
  let acc := flag_step reward (3 # 2) "reward_bait" acc in
  let acc := flag_step verify (5 # 2) "verification_or_secret_request" acc in
  let acc := flag_step link 2 "external_link_pressure" acc in
  let acc := flag_step channel 1 "alternate_channel_push" acc in
  let '(score, indicators) := acc in
  {| score := round2 (pymin (Fin 10) score);
     confidence := round2 (pymin (Fin 1) (fdiv_const score 8));
     indicators := sorted_set indicators;
     category_hint := rule_category indicators |}.

(** Two characters, or two strings, that differ in letter case only. *)
Definition same_letter (a b : ascii) : Prop := to_lower a = to_lower b.
Definition same_letters (s t : string) : Prop := lower s = lower t.
Definition same_letter_opt (a b : option ascii) : Prop :=
  option_map to_lower a = option_map to_lower b.

(** Two continuations that agree on strings differing in case only. *)
Definition same_cont (k1 k2 : option ascii -> string -> bool) : Prop :=
  forall p q s t, same_letter_opt p q -> same_letters s t -> k1 p s = k2 q t.

(** No queue is longer than its ceiling. *)
Definition within_limits (self : LLMCallGate) : Prop :=
  (Z.of_nat (length (_calls self !!! "global")) <= _global_limit self)%Z
  /\ forall stage limit,
       _stage_limits self !! stage = Some limit ->
       (Z.of_nat (length (_calls self !!! stage)) <= limit)%Z.

(** One in-window count of a snapshot is at most the matching limit. *)
Definition count_below_limit (s : LLMGateSnapshot) (queue limit : string) : Prop :=
  exists n l : Z,
    in_window_calls s !! queue = Some n /\ limits s !! limit = Some l /\ (n <= l)%Z.

(** Every in-window count of a snapshot is at most its limit. *)
Definition snapshot_within_limits (s : LLMGateSnapshot) : Prop :=
  count_below_limit s "global" "globalRpm"
  /\ count_below_limit s "reply" "replyRpm"
  /\ count_below_limit s "behavior" "behaviorRpm"
  /\ count_below_limit s "extraction" "extractionRpm".

Definition answer_within_limits (a : gate_answer) : Prop :=
  match a with
  | Answered _ => True
  | Reported s => snapshot_within_limits s
  end.

(** The calls for [stage] that got past the sampling pre-filter [pass] and
    were answered [false]. *)
Fixpoint refused (pass : string -> Z -> bool) (stage : string)
    (cs : list gate_call) (answers : list gate_answer) : Z :=
  match cs, answers with
  | CallAllow st idx _ :: cs', Answered b :: answers' =>
      ((if String.eqb st stage && negb b && pass st idx then 1 else 0)
       + refused pass stage cs' answers')%Z
  | _ :: cs', _ :: answers' => refused pass stage cs' answers'
  | _, _ => 0%Z
  end.

(** Two gates that no later call can tell apart: the same configuration,
    the same drop counters, and queues that agree on everything a prune at
    or after [last] can still see. *)
Definition gates_agree (last : Q) (a b : LLMCallGate) : Prop :=
  same_config a b
  /\ _dropped a = _dropped b
  /\ forall name, name ∈ QUEUES -> tracks (_calls a !!! name) (_calls b !!! name) last.

(** A payment identifier has been captured. *)
Definition has_payment_id (i : Intel) : bool :=
  match upi_ids i with
  | [] => match crypto_wallets i with [] => false | _ => true end
  | _ => true
  end.

(** Session [b] is session [a] some time later: the flags and the first-scam
    stamp are the same, and no count or captured identifier has been lost. *)
Definition session_progress (a b : SessionState) : Prop :=
  finalized a = finalized b
  /\ scam_detected a = scam_detected b
  /\ first_scam_timestamp a = first_scam_timestamp b
  /\ (scammer_messages a <= scammer_messages b)%Z
  /\ (agent_turns a <= agent_turns b)%Z
  /\ (actionable_category_count (intel a) <= actionable_category_count (intel b))%Z
  /\ (has_payment_id (intel a) = true -> has_payment_id (intel b) = true).

(** A session with a payment handle captured, five turns in. *)
Definition earlier_session : SessionState :=
  {| finalized := false;
     scam_detected := true;
     intel := {| actionable_category_count := 2; has_high_value := true;
                 upi_ids := ["scammer@upi"]; crypto_wallets := [] |};
     first_scam_timestamp := Some 100%Q;
     scammer_messages := 6;
     agent_turns := 5;
     rolling_scam_score := Fin 7 |}.

(** The same session two turns and three messages later. *)
Definition later_session : SessionState :=
  {| finalized := false;
     scam_detected := true;
     intel := {| actionable_category_count := 3; has_high_value := true;
                 upi_ids := ["scammer@upi"]; crypto_wallets := ["wallet"] |};
     first_scam_timestamp := Some 100%Q;
     scammer_messages := 9;
     agent_turns := 7;
     rolling_scam_score := Fin 9 |}.

(** The doubles from 32 to 64 are the multiples of [2^-47]. *)
Definition ULP_INVERSE : positive := (2 ^ 47)%positive.

(** Rounding to the nearest multiple of [2^-47], ties to even: what binary64
    does to a difference that lies between 32 and 64. *)
Definition round_near_60 (q : Q) : Q :=
  Qround_half_even (q * inject_Z (Zpos ULP_INVERSE)) # ULP_INVERSE.

(** A session ten turns in, with three actionable categories and a stamp
    [2^-70] seconds after the epoch. *)
Definition stamped_session : SessionState :=
  {| finalized := false;
     scam_detected := true;
     intel := {| actionable_category_count := 3; has_high_value := true;
                 upi_ids := []; crypto_wallets := [] |};
     first_scam_timestamp := Some (1 # 2 ^ 70)%Q;
     scammer_messages := 8;
     agent_turns := 10;
     rolling_scam_score := Fin 8 |}.

(* ===================================================================== *)
(** ** Floats: comparison, clamping and rounding *)
(* ===================================================================== *)

Section FloatFacts.

Local Open Scope Q_scope.

Lemma Qltb_lt (a b : Q) : Qltb a b = true <-> a < b.
Proof.
  unfold Qltb. rewrite negb_true_iff, <- not_true_iff_false, Qle_bool_iff.
  split; [apply Qnot_le_lt | apply Qlt_not_le].
Qed.

Lemma Qltb_ge (a b : Q) : Qltb a b = false <-> b <= a.
Proof.
  unfold Qltb. rewrite negb_false_iff. apply Qle_bool_iff.
Qed.

Lemma within_fin (lo hi q : Q) : lo <= q -> q <= hi -> within lo hi (Fin q).
Proof. intros Hlo Hhi. exists q. auto. Qed.

Lemma within_weaken (lo hi lo' hi' : Q) (x : pyfloat) :
  lo' <= lo -> hi <= hi' -> within lo hi x -> within lo' hi' x.
Proof.
  intros Hl Hh (q & -> & H1 & H2). exists q. repeat split; lra.
Qed.

(** [min(hi, x)] followed by nothing else is at most [hi], and keeps a
    lower bound of a finite [x]. *)
Lemma pymin_within (lo hi q : Q) :
  lo <= hi -> lo <= q -> within lo hi (pymin (Fin hi) (Fin q)).
Proof.
  intros Hlh Hq. unfold pymin, flt.
  destruct (Qltb q hi) eqn:E.
  - apply Qltb_lt in E. apply within_fin; lra.
  - apply within_fin; lra.
Qed.

(** [max(lo, min(hi, x))] lands in the range whatever [x] is, NaN and the
    infinities included. *)
Lemma clamp_within (lo hi : Q) (x : pyfloat) :
  lo <= hi -> within lo hi (pymax (Fin lo) (pymin (Fin hi) x)).
Proof.
  intros Hlh. destruct x as [q| | |]; unfold pymin, pymax; simpl.
  - destruct (Qltb q hi) eqn:E1; simpl.
    + apply Qltb_lt in E1. destruct (Qltb lo q) eqn:E2.
      * apply Qltb_lt in E2. apply within_fin; lra.
      * apply within_fin; lra.
    + destruct (Qltb lo hi) eqn:E2; apply within_fin; lra.
  - destruct (Qltb lo hi) eqn:E2; apply within_fin; lra.
  - apply within_fin; lra.
  - destruct (Qltb lo hi) eqn:E2; apply within_fin; lra.
Qed.

Lemma pymax_within (lo hi : Q) (x y : pyfloat) :
  within lo hi x -> within lo hi y -> within lo hi (pymax x y).
Proof.
  intros Hx Hy. unfold pymax. destruct (flt x y); assumption.
Qed.

Lemma Qround_half_even_cases (q : Q) :
  Qround_half_even q = Qfloor q
  \/ (Qround_half_even q = (Qfloor q + 1)%Z /\ inject_Z (Qfloor q) < q).
Proof.
  unfold Qround_half_even.
  destruct (Qcompare_spec (q - inject_Z (Qfloor q)) (1 # 2)) as [E|E|E].
  - destruct (Z.even (Qfloor q)); [now left|]. right. split; [reflexivity|lra].
  - now left.
  - right. split; [reflexivity|lra].
Qed.

(** Rounding to the nearest integer stays between integer bounds. *)
Lemma Qround_half_even_bounds (a b : Z) (q : Q) :
  inject_Z a <= q -> q <= inject_Z b ->
  (a <= Qround_half_even q <= b)%Z.
Proof.
  intros Ha Hb.
  assert (Hfa : (a <= Qfloor q)%Z).
  { rewrite <- (Qfloor_Z a). now apply Qfloor_resp_le. }
  assert (Hfb : (Qfloor q <= b)%Z).
  { rewrite <- (Qfloor_Z b). now apply Qfloor_resp_le. }
  destruct (Qround_half_even_cases q) as [->|[-> Hlt]]; [lia|].
  split; [lia|].
  assert (Hs : inject_Z (Qfloor q) < inject_Z b) by lra.
  rewrite <- Zlt_Qlt in Hs. lia.
Qed.

Lemma Qround_half_even_comp (p q : Q) :
  p == q -> Qround_half_even p = Qround_half_even q.
Proof.
  intros E. unfold Qround_half_even.
  rewrite (Qfloor_comp _ _ E).
  assert (E' : p - inject_Z (Qfloor q) == q - inject_Z (Qfloor q)) by lra.
  now rewrite (Qcompare_comp _ _ E' _ _ (Qeq_refl (1 # 2))).
Qed.

Lemma Qround_half_even_Z (z : Z) : Qround_half_even (inject_Z z) = z.
Proof.
  unfold Qround_half_even. rewrite Qfloor_Z.
  destruct (Qcompare_spec (inject_Z z - inject_Z z) (1 # 2)) as [E|E|E];
    [lra | reflexivity | lra].
Qed.

Lemma hundredths_bounds (a b z : Z) :
  (a <= z <= b)%Z -> a # 100 <= Qred (z # 100) /\ Qred (z # 100) <= b # 100.
Proof.
  intros [H1 H2]. rewrite (Qred_correct (z # 100)).
  unfold Qle; simpl. lia.
Qed.

(** [round(x, 2)] keeps a value inside a range whose ends are hundredths. *)
Lemma round2_within (a b : Z) (x : pyfloat) :
  within (a # 100) (b # 100) x -> within (a # 100) (b # 100) (round2 x).
Proof.
  intros (q & -> & H1 & H2). simpl.
  assert (Hb : (a <= Qround_half_even (q * 100) <= b)%Z).
  { apply Qround_half_even_bounds.
    - unfold Qle in *; simpl in *. lia.
    - unfold Qle in *; simpl in *. lia. }
  destruct (hundredths_bounds _ _ _ Hb) as [L U].
  exists (Qred (Qround_half_even (q * 100) # 100)). auto.
Qed.

Lemma round2_within_0_10 (x : pyfloat) : within 0 10 x -> within 0 10 (round2 x).
Proof.
  intros H.
  apply (within_weaken (0 # 100) (1000 # 100)); [unfold Qle; simpl; lia ..|].
  apply round2_within.
  revert H. apply within_weaken; unfold Qle; simpl; lia.
Qed.

Lemma round2_within_0_1 (x : pyfloat) : within 0 1 x -> within 0 1 (round2 x).
Proof.
  intros H.
  apply (within_weaken (0 # 100) (100 # 100)); [unfold Qle; simpl; lia ..|].
  apply round2_within.
  revert H. apply within_weaken; unfold Qle; simpl; lia.
Qed.

Lemma round2_comp (p q : Q) : p == q -> round2 (Fin p) = round2 (Fin q).
Proof.
  intros E. simpl. f_equal.
  rewrite (Qround_half_even_comp (p * 100) (q * 100)); [reflexivity|].
  now rewrite E.
Qed.

(** Rounding twice is rounding once. *)
Lemma round2_idem (x : pyfloat) : round2 (round2 x) = round2 x.
Proof.
  destruct x as [q| | |]; try reflexivity. simpl. f_equal.
  set (z := Qround_half_even (q * 100)).
  rewrite (Qround_half_even_comp _ (inject_Z z)).
  - now rewrite Qround_half_even_Z.
  - rewrite (Qred_correct (z # 100)). unfold Qeq; simpl. lia.
Qed.

End FloatFacts.

(* ===================================================================== *)
(** ** Strings: [sorted(set(...))] and membership *)
(* ===================================================================== *)

Section StringFacts.

Lemma insert_sorted_perm (s : string) (l : list string) :
  insert_sorted s l ≡ₚ s :: l.
Proof.
  induction l as [|y l IH]; simpl; [reflexivity|].
  destruct (String.leb s y); [reflexivity|].
  rewrite IH. apply Permutation_swap.
Qed.

Lemma sorted_perm (l : list string) : sorted l ≡ₚ l.
Proof.
  induction l as [|y l IH]; simpl; [reflexivity|].
  rewrite insert_sorted_perm. now rewrite IH.
Qed.

Lemma NoDup_sorted_set (l : list string) : NoDup (sorted_set l).
Proof.
  unfold sorted_set. rewrite sorted_perm. apply NoDup_remove_dups.
Qed.

Lemma elem_of_sorted_set (x : string) (l : list string) :
  x ∈ sorted_set l <-> x ∈ l.
Proof.
  unfold sorted_set. rewrite sorted_perm. apply elem_of_remove_dups.
Qed.

Lemma str_in_elem_of (x : string) (l : list string) :
  str_in x l = true <-> x ∈ l.
Proof.
  unfold str_in. rewrite existsb_exists. split.
  - intros (y & Hin & E). apply String.eqb_eq in E. subst y.
    now apply list_elem_of_In.
  - intros Hin. exists x. split; [now apply list_elem_of_In|].
    apply String.eqb_refl.
Qed.

End StringFacts.

(* ===================================================================== *)
(** ** The rule evaluator *)
(* ===================================================================== *)

Section RuleFacts.

Local Open Scope Q_scope.

Lemma rule_step_ok (text : string) (pat : regex) (w : Q) (tag : string)
    (acc : pyfloat * list string) :
  0 <= w -> tag ∈ INDICATOR_VOCABULARY -> acc_ok acc ->
  acc_ok (rule_step text pat w tag acc).
Proof.
  intros Hw Htag [(q & Hq & Hpos) Hall]. unfold rule_step.
  destruct (search pat text); [|split; eauto].
  split; simpl.
  - rewrite Hq. simpl. exists (q + w). split; [reflexivity|lra].
  - apply Forall_app. split; [assumption|]. now constructor.
Qed.

Lemma vocabulary_mem (tag : string) :
  In tag INDICATOR_VOCABULARY -> tag ∈ INDICATOR_VOCABULARY.
Proof. apply list_elem_of_In. Qed.

(** The result of the rule evaluator, read off its accumulator. *)
Lemma rule_based_shape (text : string) :
  _rule_based_analysis text = zero_result
  \/ exists q inds,
       0 <= q
       /\ Forall (fun tag => tag ∈ INDICATOR_VOCABULARY) inds
       /\ _rule_based_analysis text =
            {| score := round2 (pymin (Fin 10) (Fin q));
               confidence := round2 (pymin (Fin 1) (Fin (q / 8)));
               indicators := sorted_set inds;
               category_hint := rule_category inds |}.
Proof.
  unfold _rule_based_analysis.
  destruct (str_empty text); [now left|right].
  cbv zeta.
  match goal with
  | |- context [let '(_, _) := ?a in _] =>
      assert (Hok : acc_ok a);
      [| destruct a as [sc inds] ]
  end.
  { repeat (apply rule_step_ok;
            [unfold Qle; simpl; lia
            | apply vocabulary_mem; simpl; tauto
            | ]).
    split; [exists 0; split; [reflexivity|lra] | constructor]. }
  destruct Hok as [(q & Hq & Hpos) Hall]. simpl in Hq, Hall. subst sc.
  exists q, inds. repeat split; assumption.
Qed.

Lemma zero_result_bounded : result_bounded zero_result.
Proof.
  repeat split; simpl.
  - apply within_fin; lra.
  - apply within_fin; lra.
  - constructor.
Qed.

Lemma rule_based_bounded (text : string) :
  result_bounded (_rule_based_analysis text).
Proof.
  destruct (rule_based_shape text) as [->|(q & inds & Hq & _ & ->)];
    [apply zero_result_bounded|].
  repeat split; simpl score; simpl confidence; simpl indicators.
  - apply round2_within_0_10. apply pymin_within; lra.
  - apply round2_within_0_1. apply pymin_within; [lra|].
    apply Qle_shift_div_l; lra.
  - apply NoDup_sorted_set.
Qed.

Lemma rule_based_vocabulary (text tag : string) :
  tag ∈ indicators (_rule_based_analysis text) -> tag ∈ INDICATOR_VOCABULARY.
Proof.
  destruct (rule_based_shape text) as [->|(q & inds & _ & Hall & ->)]; simpl.
  - intros H. inversion H.
  - rewrite elem_of_sorted_set. intros Hin.
    rewrite Forall_forall in Hall. now apply Hall.
Qed.

(** Score and confidence of the rule evaluator are already rounded. *)
Lemma rule_based_rounded (text : string) :
  round2 (score (_rule_based_analysis text)) = score (_rule_based_analysis text)
  /\ round2 (confidence (_rule_based_analysis text))
     = confidence (_rule_based_analysis text).
Proof.
  destruct (rule_based_shape text) as [->|(q & inds & _ & _ & ->)]; simpl score;
    simpl confidence.
  - split; reflexivity.
  - split; apply round2_idem.
Qed.

End RuleFacts.

(* ===================================================================== *)
(** ** The judgment evaluator and the fusion *)
(* ===================================================================== *)

Section FusionFacts.

Local Open Scope Q_scope.

Variable rt : runtime.

(** [parse_payload] raises nothing but [OverflowError]. *)
Lemma parse_payload_raises (d : list (string * pyobj)) (e : exn) :
  parse_payload rt d = Raise e -> e = OverflowError.
Proof.
  unfold parse_payload.
  destruct (py_float rt (dict_get d "riskScore" _)) as [s|[| |]];
    try discriminate; [|congruence].
  destruct (py_float rt (dict_get d "confidence" _)) as [c|[| |]];
    try discriminate; congruence.
Qed.

(** The shape of a judgment result: clamped, rounded, deduplicated. *)
Lemma parse_payload_shape (d : list (string * pyobj)) (j : BehavioralAnalysisResult) :
  parse_payload rt d = Ok (Some j) ->
  exists s c inds,
    score j = round2 (pymax (Fin 0) (pymin (Fin 10) s))
    /\ confidence j = round2 (pymax (Fin 0) (pymin (Fin 1) c))
    /\ indicators j = sorted_set inds.
Proof.
  unfold parse_payload.
  destruct (py_float rt (dict_get d "riskScore" _)) as [s|[| |]];
    try discriminate.
  destruct (py_float rt (dict_get d "confidence" _)) as [c|[| |]];
    try discriminate.
  intros H. injection H as <-. simpl.
  do 3 eexists. repeat split; reflexivity.
Qed.

Lemma llm_analysis_payload (text : string) (openai gemini : option llm_client)
    (o : result (option BehavioralAnalysisResult)) :
  _llm_analysis rt text openai gemini = o ->
  o = Ok None \/ exists d, o = parse_payload rt d.
Proof.
  unfold _llm_analysis. intros <-.
  destruct (str_empty text); [now left|].
  destruct (negb _); [now left|].
  cbv zeta.
  match goal with |- context [match ?r with Some _ => _ | None => _ end = _] =>
    destruct r as [txt|] end; [|now left].
  destruct (str_empty txt); [now left|].
  destruct (extract_json_object rt txt); try (now left).
  right. eauto.
Qed.

Lemma llm_analysis_raises (text : string) (openai gemini : option llm_client) (e : exn) :
  _llm_analysis rt text openai gemini = Raise e -> e = OverflowError.
Proof.
  intros H. destruct (llm_analysis_payload _ _ _ _ H) as [E|[d E]];
    [discriminate|].
  symmetry in E. now apply parse_payload_raises in E.
Qed.

Lemma llm_analysis_shape (text : string) (openai gemini : option llm_client)
    (j : BehavioralAnalysisResult) :
  _llm_analysis rt text openai gemini = Ok (Some j) ->
  exists s c inds,
    score j = round2 (pymax (Fin 0) (pymin (Fin 10) s))
    /\ confidence j = round2 (pymax (Fin 0) (pymin (Fin 1) c))
    /\ indicators j = sorted_set inds.
Proof.
  intros H. destruct (llm_analysis_payload _ _ _ _ H) as [E|[d E]];
    [discriminate|].
  symmetry in E. now apply parse_payload_shape in E.
Qed.

Lemma llm_analysis_bounded (text : string) (openai gemini : option llm_client)
    (j : BehavioralAnalysisResult) :
  _llm_analysis rt text openai gemini = Ok (Some j) -> result_bounded j.
Proof.
  intros H. apply llm_analysis_shape in H as (s & c & inds & Hs & Hc & Hi).
  unfold result_bounded. rewrite Hs, Hc, Hi. repeat split.
  - apply round2_within_0_10, clamp_within. lra.
  - apply round2_within_0_1, clamp_within. lra.
  - apply NoDup_sorted_set.
Qed.

Lemma llm_analysis_rounded (text : string) (openai gemini : option llm_client)
    (j : BehavioralAnalysisResult) :
  _llm_analysis rt text openai gemini = Ok (Some j) ->
  round2 (confidence j) = confidence j.
Proof.
  intros H. apply llm_analysis_shape in H as (s & c & inds & _ & -> & _).
  apply round2_idem.
Qed.

Lemma fuse_bounded (r j : BehavioralAnalysisResult) :
  result_bounded r -> result_bounded j -> result_bounded (fuse r j).
Proof.
  intros ((a & Ha & Ha0 & Ha1) & Hrc & _) ((b & Hb & Hb0 & Hb1) & Hjc & _).
  unfold fuse. repeat split; simpl.
  - rewrite Ha, Hb. simpl.
    apply round2_within_0_10, pymin_within; [lra|].
    unfold Qle in *; simpl in *; nia.
  - apply round2_within_0_1.
    destruct (pymax_within 0 1 _ _ Hrc Hjc) as (m & -> & Hm0 & Hm1).
    apply pymin_within; lra.
  - apply NoDup_sorted_set.
Qed.

(** An empty message is never sent to a provider. *)
Lemma llm_analysis_empty (openai gemini : option llm_client) :
  _llm_analysis rt "" openai gemini = Ok None.
Proof. reflexivity. Qed.

(** [analyze] raises nothing but [OverflowError], which comes from the
    conversion of an integer of the payload that no double can hold. *)
Lemma analyze_raises (text : string) (openai gemini : option llm_client) (e : exn) :
  analyze rt text openai gemini = Raise e -> e = OverflowError.
Proof.
  unfold analyze.
  destruct (_llm_analysis rt text openai gemini) as [[j|]|e'] eqn:E;
    try discriminate.
  intros H. injection H as <-. now apply llm_analysis_raises in E.
Qed.

End FusionFacts.

(** It does raise it: [float] of an integer score of two to the 1024. *)
Lemma analyze_overflow :
  analyze (fixed_runtime (ODict [("riskScore", OInt (2 ^ 1024))])) "hi"
          (Some (keyed_client "{}")) None
  = Raise OverflowError.
Proof. vm_compute. reflexivity. Qed.

Section ClampFacts.

Local Open Scope Q_scope.

Lemma round2_pymax_lo (lo q : Q) :
  lo <= q -> round2 (pymax (Fin lo) (Fin q)) = round2 (Fin q).
Proof.
  intros H. unfold pymax, flt. destruct (Qltb lo q) eqn:E; [reflexivity|].
  apply Qltb_ge in E. apply round2_comp. lra.
Qed.

(** For a sum that is not negative, the lower clamp changes nothing. *)
Lemma round2_clamp_nonneg (c : Q) :
  0 <= c ->
  round2 (pymin (Fin 10) (Fin c)) = round2 (clamp (Fin c) (Fin 0) (Fin 10)).
Proof.
  intros H. unfold clamp.
  destruct (pymin_within 0 10 c) as (m & -> & Hm & _); [lra | assumption |].
  symmetry. now apply round2_pymax_lo.
Qed.

(** A rounded value of [[0,1]] is left alone by both clamps. *)
Lemma pymin_one_rounded (x : pyfloat) :
  within 0 1 x -> round2 x = x -> pymin (Fin 1) x = x.
Proof.
  intros (q & -> & H0 & H1) Hr. unfold pymin, flt.
  destruct (Qltb q 1) eqn:E; [reflexivity|].
  apply Qltb_ge in E. rewrite <- Hr.
  rewrite (round2_comp q 1) by lra. reflexivity.
Qed.

Lemma pymax_zero_rounded (x : pyfloat) :
  within 0 1 x -> round2 x = x -> pymax (Fin 0) x = x.
Proof.
  intros (q & -> & H0 & H1) Hr. unfold pymax, flt.
  destruct (Qltb 0 q) eqn:E; [reflexivity|].
  apply Qltb_ge in E. rewrite <- Hr.
  rewrite (round2_comp q 0) by lra. reflexivity.
Qed.

Lemma pymax_rounded (x y : pyfloat) :
  round2 x = x -> round2 y = y -> round2 (pymax x y) = pymax x y.
Proof. intros Hx Hy. unfold pymax. destruct (flt x y); assumption. Qed.

End ClampFacts.

Lemma or_else_present (a b : option string) :
  category_present a -> or_else a b = a.
Proof.
  intros (s & -> & Hs). simpl. destruct s; [contradiction|reflexivity].
Qed.

Lemma or_else_absent (a b : option string) :
  ~ category_present a -> or_else a b = b.
Proof.
  intros H. destruct a as [s|]; [|reflexivity]. simpl.
  destruct s; [reflexivity|]. exfalso. apply H. eexists. split; [reflexivity|discriminate].
Qed.

(* ===================================================================== *)
(** ** Properties of [analyze] *)
(* ===================================================================== *)

(** C1.  Whatever the text and whatever the providers answer, the result of
    the rule evaluator, and every result that [analyze] returns (the rule
    result handed through, or the fusion), has its score in [[0,10]], its
    confidence in [[0,1]] and no indicator twice. *)
Theorem analyze_result_bounded (rt : runtime) (text : string)
    (openai gemini : option llm_client) :
  result_bounded (_rule_based_analysis text)
  /\ forall r, analyze rt text openai gemini = Ok r -> result_bounded r.
Proof.
  split; [apply rule_based_bounded|].
  intros r. unfold analyze.
  destruct (_llm_analysis rt text openai gemini) as [[j|]|e] eqn:E;
    intros H; try discriminate; injection H as <-.
  - apply fuse_bounded; [apply rule_based_bounded|].
    eapply llm_analysis_bounded, E.
  - apply rule_based_bounded.
Qed.

(** C2.  When the judgment evaluator yields a result [j], [analyze] returns
    the fusion: the score is the weighted sum clamped to [[0,10]] and rounded
    to two places, the confidence is the larger of the two confidences
    clamped to [[0,1]], the indicators are the union of the two indicator
    lists, and the category is the judgment's when it has one (a non-empty
    string) and the rule evaluator's otherwise. *)
Theorem analyze_fusion (rt : runtime) (text : string)
    (openai gemini : option llm_client) (j : BehavioralAnalysisResult) :
  _llm_analysis rt text openai gemini = Ok (Some j) ->
  let rule := _rule_based_analysis text in
  exists fused,
    analyze rt text openai gemini = Ok fused
    /\ score fused =
         round2 (clamp (fadd (fmul (score rule) (Fin (6 # 10)))
                             (fmul (score j) (Fin (4 # 10))))
                       (Fin 0) (Fin 10))
    /\ confidence fused =
         clamp (pymax (confidence rule) (confidence j)) (Fin 0) (Fin 1)
    /\ (forall tag, tag ∈ indicators fused <->
                    tag ∈ indicators rule \/ tag ∈ indicators j)
    /\ (category_present (category_hint j) ->
        category_hint fused = category_hint j)
    /\ (~ category_present (category_hint j) ->
        category_hint fused = category_hint rule).
Proof.
  intros E rule. exists (fuse rule j).
  pose proof (rule_based_bounded text) as ((a & Ha & Ha0 & Ha1) & Hrc & _).
  pose proof (llm_analysis_bounded _ _ _ _ _ E) as ((b & Hb & Hb0 & Hb1) & Hjc & _).
  pose proof (rule_based_rounded text) as [_ Hrr].
  pose proof (llm_analysis_rounded _ _ _ _ _ E) as Hjr.
  fold rule in Ha, Hrc, Hrr.
  split; [unfold analyze; now rewrite E|].
  split; [|split; [|split; [|split]]].
  - unfold fuse; simpl. rewrite Ha, Hb. simpl.
    apply round2_clamp_nonneg. unfold Qle in *; simpl in *; nia.
  - unfold fuse, clamp; simpl.
    set (m := pymax (confidence rule) (confidence j)).
    assert (Hm : within 0 1 m) by now apply pymax_within.
    assert (Hmr : round2 m = m) by now apply pymax_rounded.
    rewrite (pymin_one_rounded m Hm Hmr), (pymax_zero_rounded m Hm Hmr).
    exact Hmr.
  - intros tag. unfold fuse; simpl.
    rewrite elem_of_sorted_set. apply elem_of_app.
  - intros Hp. unfold fuse; simpl. now apply or_else_present.
  - intros Hp. unfold fuse; simpl. now apply or_else_absent.
Qed.

(** C5, amended.  A tag of the rule evaluator is always one of the six
    vocabulary tags; a tag of a result returned by [analyze] is one of the
    six, or it is a tag of the judgment result, which carries the strings of
    the provider's list without a check against the vocabulary. *)
Theorem analyze_tags_origin (rt : runtime) (text : string)
    (openai gemini : option llm_client) :
  (forall tag, tag ∈ indicators (_rule_based_analysis text) ->
               tag ∈ INDICATOR_VOCABULARY)
  /\ (forall r tag,
        analyze rt text openai gemini = Ok r ->
        tag ∈ indicators r ->
        tag ∈ INDICATOR_VOCABULARY
        \/ exists j, _llm_analysis rt text openai gemini = Ok (Some j)
                     /\ tag ∈ indicators j).
Proof.
  split; [intros tag; apply rule_based_vocabulary|].
  intros r tag. unfold analyze.
  destruct (_llm_analysis rt text openai gemini) as [[j|]|e] eqn:E;
    intros H; try discriminate; injection H as <-.
  - unfold fuse; simpl. rewrite elem_of_sorted_set, elem_of_app.
    intros [Hin|Hin].
    + left. now apply rule_based_vocabulary in Hin.
    + right. eauto.
  - intros Hin. left. now apply rule_based_vocabulary in Hin.
Qed.

(** C9.  On the empty string [analyze] returns, under every runtime and every
    pair of optional clients, the zero result: score 0, confidence 0, no
    indicator and no category.  It returns: no exception is raised. *)
Theorem analyze_empty (rt : runtime) (openai gemini : option llm_client) :
  analyze rt "" openai gemini =
  Ok {| score := Fin 0; confidence := Fin 0; indicators := [];
        category_hint := None |}.
Proof. reflexivity. Qed.

Lemma analyze_result_bounded_witness :
  exists r,
    analyze (fixed_runtime odd_payload) "urgent call" (Some (keyed_client "{}")) None = Ok r
    /\ result_bounded r.
Proof.
  eexists. split; [vm_compute; reflexivity|].
  apply (proj2 (analyze_result_bounded (fixed_runtime odd_payload) "urgent call"
                  (Some (keyed_client "{}")) None)).
  vm_compute. reflexivity.
Defined.

Lemma analyze_fusion_witness :
  exists j fused,
    _llm_analysis (fixed_runtime odd_payload) "urgent call"
                  (Some (keyed_client "{}")) None = Ok (Some j)
    /\ analyze (fixed_runtime odd_payload) "urgent call"
               (Some (keyed_client "{}")) None = Ok fused
    /\ score fused =
         round2 (clamp (fadd (fmul (score (_rule_based_analysis "urgent call"))
                                   (Fin (6 # 10)))
                             (fmul (score j) (Fin (4 # 10))))
                       (Fin 0) (Fin 10))
    /\ category_hint fused = category_hint j.
Proof.
  eexists.
  destruct (analyze_fusion (fixed_runtime odd_payload) "urgent call"
              (Some (keyed_client "{}")) None _ ltac:(vm_compute; reflexivity))
    as (fused & Hf & Hs & _ & _ & Hc & _).
  exists fused. split; [vm_compute; reflexivity|].
  split; [exact Hf|]. split; [exact Hs|].
  apply Hc. eexists. split; [reflexivity|discriminate].
Defined.

(** C5, counterexample.  The provider lists the tag [made_up]; the result of
    [analyze] carries it, and it is none of the six vocabulary tags. *)
Lemma analyze_made_up_tag :
  analyze (fixed_runtime odd_payload) "urgent call" (Some (keyed_client "{}")) None
  = Ok {| score := Fin (29 # 5); confidence := Fin 1;
          indicators := ["alternate_channel_push"; "made_up"; "urgency"];
          category_hint := Some "UPI_FRAUD" |}
  /\ "made_up" ∈ ["alternate_channel_push"; "made_up"; "urgency"]
  /\ "made_up" ∉ INDICATOR_VOCABULARY.
Proof.
  split; [vm_compute; reflexivity|]. split.
  - apply list_elem_of_In. simpl. tauto.
  - intros H. apply list_elem_of_In in H. simpl in H.
    repeat (destruct H as [H|H]; [discriminate H|]). exact H.
Qed.

Lemma analyze_tags_origin_witness :
  exists r,
    analyze (fixed_runtime odd_payload) "urgent call" (Some (keyed_client "{}")) None = Ok r
    /\ "made_up" ∈ indicators r
    /\ ("made_up" ∈ INDICATOR_VOCABULARY
        \/ exists j, _llm_analysis (fixed_runtime odd_payload) "urgent call"
                       (Some (keyed_client "{}")) None = Ok (Some j)
                     /\ "made_up" ∈ indicators j).
Proof.
  eexists. split; [vm_compute; reflexivity|].
  assert (Hin : "made_up" ∈ ["alternate_channel_push"; "made_up"; "urgency"]).
  { apply list_elem_of_In. simpl. tauto. }
  split; [exact Hin|].
  eapply (proj2 (analyze_tags_origin (fixed_runtime odd_payload) "urgent call"
                   (Some (keyed_client "{}")) None));
    [vm_compute; reflexivity | exact Hin].
Defined.

(** C4.  With no provider configured, the example message yields score 8.5,
    confidence 1.0, category [PHISHING] and exactly the four indicators
    [urgency], [authority_impersonation], [verification_or_secret_request]
    and [external_link_pressure] (listed in sorted order). *)
Theorem analyze_example (rt : runtime) :
  analyze rt example_text None None =
  Ok {| score := Fin (17 # 2);
        confidence := Fin 1;
        indicators := ["authority_impersonation"; "external_link_pressure";
                       "urgency"; "verification_or_secret_request"];
        category_hint := Some "PHISHING" |}.
Proof. vm_compute. reflexivity. Qed.

(* ===================================================================== *)
(** ** The strategy classifier *)
(* ===================================================================== *)

Section StrategyFacts.

Local Open Scope Q_scope.

(** The tier as a function of the four effective inputs. *)
Lemma infer_strategy_state_cases (state : SessionState) (s : pyfloat)
    (detected : option bool) (actionable turns : option Z) :
  let d := if_none (scam_detected state) detected in
  let a := if_none (actionable_category_count (intel state)) actionable in
  let t := if_none (agent_turns state) turns in
  infer_strategy_state state (Some s) detected actionable turns =
    if flt s (Fin 3) && negb d then "Neutral"
    else if flt s (Fin 6) && negb d then "Suspicious"
    else if flt s (Fin 10) then "Extraction Mode"
    else if (3 <=? a)%Z || (5 <=? t)%Z then "Intelligence Harvest Mode"
    else "High Confidence Scam".
Proof. reflexivity. Qed.

(** The three thresholds are crossed in order as the score grows. *)
Lemma flt_threshold_mono (s1 s2 : pyfloat) (k : Q) :
  fle s1 s2 = true -> flt s2 (Fin k) = true -> flt s1 (Fin k) = true.
Proof.
  destruct s1 as [a| | |], s2 as [b| | |]; simpl; try discriminate; auto.
  rewrite Qle_bool_iff, !Qltb_lt. intros. lra.
Qed.

Lemma flt_threshold_step (s : pyfloat) (k k' : Q) :
  k <= k' -> flt s (Fin k) = true -> flt s (Fin k') = true.
Proof.
  destruct s as [a| | |]; simpl; try discriminate; auto.
  rewrite !Qltb_lt. intros. lra.
Qed.

End StrategyFacts.

(** C7.  With the detected flag, the actionable count and the agent turns
    held fixed, a larger score never yields a less aggressive tier, in the
    order Neutral, Suspicious, Extraction Mode, Intelligence Harvest Mode,
    High Confidence Scam. *)
Theorem infer_strategy_state_monotone (state : SessionState)
    (detected : option bool) (actionable turns : option Z) (s1 s2 : pyfloat) :
  fle s1 s2 = true ->
  exists r1 r2,
    tier_rank (infer_strategy_state state (Some s1) detected actionable turns) = Some r1
    /\ tier_rank (infer_strategy_state state (Some s2) detected actionable turns) = Some r2
    /\ r1 <= r2.
Proof.
  intros Hle. rewrite !infer_strategy_state_cases. cbv zeta.
  set (d := if_none (scam_detected state) detected).
  set (h := orb _ _).
  pose proof (flt_threshold_mono s1 s2 3 Hle) as M3.
  pose proof (flt_threshold_mono s1 s2 6 Hle) as M6.
  pose proof (flt_threshold_mono s1 s2 10 Hle) as M10.
  pose proof (flt_threshold_step s1 3 6 ltac:(unfold Qle; simpl; lia)) as S36.
  pose proof (flt_threshold_step s1 6 10 ltac:(unfold Qle; simpl; lia)) as S610.
  destruct (flt s1 (Fin 3)) eqn:A3, (flt s1 (Fin 6)) eqn:A6,
    (flt s1 (Fin 10)) eqn:A10, (flt s2 (Fin 3)) eqn:B3,
    (flt s2 (Fin 6)) eqn:B6, (flt s2 (Fin 10)) eqn:B10;
    try (specialize (M3 eq_refl); discriminate M3);
    try (specialize (M6 eq_refl); discriminate M6);
    try (specialize (M10 eq_refl); discriminate M10);
    try (specialize (S36 eq_refl); discriminate S36);
    try (specialize (S610 eq_refl); discriminate S610);
    destruct d, h; simpl; do 2 eexists; (split; [reflexivity|]); (split; [reflexivity|]); lia.
Qed.

Lemma infer_strategy_state_monotone_witness :
  fle (Fin 5) PInf = true
  /\ exists r1 r2,
       tier_rank (infer_strategy_state sample_session (Some (Fin 5)) None None None) = Some r1
       /\ tier_rank (infer_strategy_state sample_session (Some PInf) None None None) = Some r2
       /\ r1 <= r2.
Proof.
  split; [reflexivity|].
  apply (infer_strategy_state_monotone sample_session None None None (Fin 5) PInf).
  reflexivity.
Defined.

(* ===================================================================== *)
(** ** The engagement finalizer *)
(* ===================================================================== *)

(** C8.  A session with a detected scam that is not finalized and has twelve
    or more agent turns is to be finalized, whatever the clock, the
    intelligence gathered and the message counts. *)
Theorem should_finalize_hard_cap (state : SessionState) (now : Q) :
  scam_detected state = true ->
  finalized state = false ->
  (12 <= agent_turns state)%Z ->
  should_finalize state now = true.
Proof.
  intros Hd Hf Ht. unfold should_finalize. rewrite Hd, Hf. simpl.
  apply Z.leb_le in Ht. now rewrite Ht.
Qed.

Lemma should_finalize_hard_cap_witness :
  should_finalize sample_session 0 = true.
Proof.
  apply should_finalize_hard_cap; [reflexivity | reflexivity | simpl; lia].
Defined.

(* ===================================================================== *)
(** ** The call admission gate: queues *)
(* ===================================================================== *)

Section QueueFacts.

Local Open Scope Q_scope.
Local Open Scope list_scope.

Lemma pop_stale_app_one (c x : Q) (l : list Q) :
  pop_stale c (l ++ [x]) =
  match pop_stale c l with
  | [] => pop_stale c [x]
  | y :: r => (y :: r) ++ [x]
  end.
Proof.
  induction l as [|a l IH]; simpl; [reflexivity|].
  destruct (Qltb a c); [exact IH|reflexivity].
Qed.

Lemma pop_stale_twice (c c' : Q) (l : list Q) :
  c' <= c -> pop_stale c (pop_stale c' l) = pop_stale c l.
Proof.
  intros Hc. induction l as [|a l IH]; simpl; [reflexivity|].
  destruct (Qltb a c') eqn:E.
  - apply Qltb_lt in E. rewrite IH.
    assert (E' : Qltb a c = true) by (apply Qltb_lt; lra).
    now rewrite E'.
  - reflexivity.
Qed.

Lemma in_window_all (c : Q) (l : list Q) :
  Forall (Qle c) l -> in_window c l = l.
Proof.
  induction 1 as [|a l Ha Hl IH]; simpl; [reflexivity|].
  apply Qle_bool_iff in Ha. rewrite Ha. f_equal. exact IH.
Qed.

Lemma in_window_app (c : Q) (l l' : list Q) :
  in_window c (l ++ l') = in_window c l ++ in_window c l'.
Proof. apply List.filter_app. Qed.

(** On a queue in clock order, popping the stale head is filtering. *)
Lemma pop_stale_sorted (c : Q) (l : list Q) :
  nondecreasing l -> pop_stale c l = in_window c l.
Proof.
  induction l as [|a l IH]; simpl; [reflexivity|].
  intros [Hall Hnd]. unfold Qltb.
  destruct (Qle_bool c a) eqn:E; simpl.
  - apply Qle_bool_iff in E. rewrite in_window_all; [reflexivity|].
    eapply Forall_impl; [exact Hall|]. simpl. intros t Ht. lra.
  - now apply IH.
Qed.

Lemma nondecreasing_app_one (l : list Q) (x : Q) :
  nondecreasing l -> Forall (fun t => t <= x) l -> nondecreasing (l ++ [x]).
Proof.
  induction l as [|a l IH]; simpl; intros Hnd Hall.
  - split; constructor.
  - destruct Hnd as [Ha Hnd]. apply Forall_cons in Hall as [Hax Hall].
    split; [|now apply IH].
    apply Forall_app. split; [assumption|]. now constructor.
Qed.

Lemma tracks_later (q hist : list Q) (last now : Q) :
  last <= now -> tracks q hist last -> tracks q hist now.
Proof. intros Hl H c Hc. apply H. lra. Qed.

Lemma tracks_prune (q hist : list Q) (last now : Q) :
  last <= now -> tracks q hist last -> tracks (_prune q now) hist now.
Proof.
  intros Hl H c Hc. unfold _prune.
  rewrite pop_stale_twice by exact Hc. apply H. lra.
Qed.

Lemma tracks_append (q hist : list Q) (last x : Q) :
  tracks q hist last -> tracks (q ++ [x]) (hist ++ [x]) last.
Proof.
  intros H c Hc. rewrite !pop_stale_app_one. now rewrite (H c Hc).
Qed.

Lemma tracks_nil (last : Q) : tracks [] [] last.
Proof. intros c _. reflexivity. Qed.

End QueueFacts.

(* ===================================================================== *)
(** ** The call admission gate: one call *)
(* ===================================================================== *)

Section AllowFacts.

Lemma allow_inv (self self' : LLMCallGate) (stage : string) (idx : Z) (now : Q)
    (b : bool) :
  allow self stage idx now = (b, self') ->
  allow_outcome self stage idx now b self'.
Proof.
  unfold allow.
  destruct (_stage_limits self !! stage) as [limit|] eqn:Hs;
    [|intros [= <- <-]; now constructor].
  destruct (_enabled self) eqn:He; simpl negb; cbv iota;
    [|intros [= <- <-]; now apply AllowDisabled with limit].
  destruct (String.eqb stage "behavior"
            && negb (_behavior_sampling_allows self (Z.max 0 idx))) eqn:Hp.
  { intros [= <- <-]. apply AllowSampledOut with limit; auto.
    unfold passes_sampling. now rewrite Hp. }
  assert (Hp' : passes_sampling self stage idx = true).
  { unfold passes_sampling. now rewrite Hp. }
  cbv zeta. simpl _global_limit. simpl _calls.
  destruct (_global_limit self <=? _)%Z eqn:Hg.
  { apply Z.leb_le in Hg. intros [= <- <-].
    apply AllowDropped with limit; auto. }
  apply Z.leb_gt in Hg.
  destruct (limit <=? _)%Z eqn:Hl.
  { apply Z.leb_le in Hl. intros [= <- <-].
    apply AllowDropped with limit; auto. }
  apply Z.leb_gt in Hl. intros [= <- <-].
  now apply AllowAdmitted with limit.
Qed.

Lemma allow_outcome_spec (self : LLMCallGate) (stage : string) (idx : Z) (now : Q) :
  allow_outcome self stage idx now
    (fst (allow self stage idx now)) (snd (allow self stage idx now)).
Proof. apply allow_inv. now destruct (allow self stage idx now). Qed.

Lemma allow_outcome_config self stage idx now b self' :
  allow_outcome self stage idx now b self' -> same_config self self'.
Proof. destruct 1; repeat split. Qed.

Lemma known_stage (self : LLMCallGate) (stage : string) :
  gate_wf self -> is_Some (_stage_limits self !! stage) -> stage ∈ STAGES.
Proof.
  intros (_ & _ & Hd & _) Hs. apply elem_of_dom in Hs.
  rewrite Hd in Hs. now apply elem_of_list_to_set in Hs.
Qed.

Lemma stage_known (self : LLMCallGate) (stage : string) :
  gate_wf self -> stage ∈ STAGES -> is_Some (_stage_limits self !! stage).
Proof.
  intros (_ & _ & Hd & _) Hs. apply elem_of_dom.
  rewrite Hd. now apply elem_of_list_to_set.
Qed.

Lemma stage_cases (stage : string) :
  stage ∈ STAGES -> stage = "reply" \/ stage = "behavior" \/ stage = "extraction".
Proof.
  intros H. apply list_elem_of_In in H. simpl in H.
  destruct H as [<-|[<-|[<-|[]]]]; auto.
Qed.

Lemma stage_in_queues (stage : string) : stage ∈ STAGES -> stage ∈ QUEUES.
Proof. intros H. unfold QUEUES. apply elem_of_cons. now right. Qed.

Lemma new_gate_wf (en : bool) (G R B E N : Z) : gate_wf (new_gate en G R B E N).
Proof.
  repeat split; simpl; lia.
Qed.

Lemma dom_insert_known {A : Type} (m : gmap string A) (k : string) (v : A)
    (D : gset string) :
  dom m = D -> k ∈ D -> dom (<[k := v]> m) = D.
Proof.
  intros <- Hk. apply dom_insert_lookup_L. now apply elem_of_dom.
Qed.

Lemma global_in_queues : "global" ∈ (list_to_set QUEUES : gset string).
Proof. apply elem_of_list_to_set. unfold QUEUES. apply elem_of_cons. now left. Qed.

Lemma allow_outcome_wf self stage idx now b self' :
  gate_wf self -> allow_outcome self stage idx now b self' -> gate_wf self'.
Proof.
  intros Hwf O.
  assert (Hk : is_Some (_stage_limits self !! stage) ->
               stage ∈ (list_to_set STAGES : gset string)
               /\ stage ∈ (list_to_set QUEUES : gset string)).
  { intros H. pose proof (known_stage self stage Hwf H) as Hin.
    split; apply elem_of_list_to_set; [assumption|now apply stage_in_queues]. }
  destruct Hwf as (H1 & H2 & H3 & H4 & H5).
  destruct O as [Hs|lim Hs He|lim Hs He Hp|lim Hs He Hp Hfull|lim Hs He Hp Hg Hl];
    try (repeat split; assumption);
    destruct (Hk (ex_intro _ lim Hs)) as [HkS HkQ].
  - repeat split; simpl; try assumption.
    + unfold pruned_calls.
      repeat (apply dom_insert_known; [|assumption || apply global_in_queues]).
      assumption.
    + now apply dom_insert_known.
  - repeat split; simpl; try assumption.
    unfold appended_calls, pruned_calls.
    repeat (apply dom_insert_known; [|assumption || apply global_in_queues]).
    assumption.
Qed.

End AllowFacts.

(* ===================================================================== *)
(** ** The call admission gate: the invariant of a run *)
(* ===================================================================== *)

Section InvariantFacts.

Local Open Scope Q_scope.
Local Open Scope list_scope.

Lemma pruned_calls_lookup (self : LLMCallGate) (stage name : string) (now : Q) :
  pruned_calls self stage now !!! name =
  if decide (stage = name) then _prune (_calls self !!! stage) now
  else if decide ("global" = name) then _prune (_calls self !!! "global") now
  else _calls self !!! name.
Proof.
  unfold pruned_calls. rewrite !lookup_total_insert. reflexivity.
Qed.

Lemma appended_calls_lookup (self : LLMCallGate) (stage name : string) (now : Q) :
  appended_calls self stage now !!! name =
  if decide (stage = name) then _prune (_calls self !!! stage) now ++ [now]
  else if decide ("global" = name) then _prune (_calls self !!! "global") now ++ [now]
  else _calls self !!! name.
Proof.
  unfold appended_calls. rewrite !lookup_total_insert, pruned_calls_lookup.
  repeat case_decide; congruence.
Qed.

Lemma pruned_all_lookup (calls : gmap string (list Q)) (name : string) (now : Q) :
  ((fun queue => _prune queue now) <$> calls) !!! name = _prune (calls !!! name) now.
Proof.
  rewrite lookup_total_fmap, lookup_total_alt.
  destruct (calls !! name); reflexivity.
Qed.

Lemma feeds_stage (stage : string) : feeds stage stage = true.
Proof. unfold feeds. rewrite String.eqb_refl. apply orb_true_r. Qed.

Lemma feeds_other (name stage : string) :
  stage <> name -> "global" <> name -> feeds name stage = false.
Proof.
  intros H1 H2. unfold feeds.
  destruct (String.eqb_spec name "global"); [congruence|].
  destruct (String.eqb_spec name stage); [congruence|reflexivity].
Qed.

Lemma Forall_le_later (l : list Q) (last now : Q) :
  last <= now -> Forall (fun t => t <= last) l -> Forall (fun t => t <= now) l.
Proof.
  intros H Hall. eapply Forall_impl; [exact Hall|].
  simpl. intros t Ht. lra.
Qed.

Lemma gate_inv_later (self : LLMCallGate) (hist : string -> list Q) (last now : Q) :
  last <= now -> gate_inv self hist last -> gate_inv self hist now.
Proof.
  intros Hl (Ht & Hh & Hc). repeat split.
  - intros name Hn. eapply tracks_later; eauto.
  - now apply Hh.
  - eapply Forall_le_later; [exact Hl|]. now apply Hh.
  - exact Hc.
Qed.

Lemma gate_inv_ext (self : LLMCallGate) (hist hist' : string -> list Q) (last : Q) :
  (forall name, hist name = hist' name) ->
  gate_inv self hist last -> gate_inv self hist' last.
Proof.
  intros E (Ht & Hh & Hc). repeat split.
  - intros name Hn. rewrite <- E. now apply Ht.
  - rewrite <- E. now apply Hh.
  - rewrite <- E. now apply Hh.
  - intros c. rewrite <- !E. apply Hc.
Qed.

Lemma record_false (hist : string -> list Q) (stage : string) (now : Q) (name : string) :
  hist name = record hist false stage now name.
Proof. unfold record. simpl. now rewrite app_nil_r. Qed.

Lemma new_gate_inv (en : bool) (G R B E N : Z) (last : Q) :
  gate_inv (new_gate en G R B E N) (fun _ => []) last.
Proof.
  repeat split; try constructor.
  intros name Hn. apply list_elem_of_In in Hn. simpl in Hn.
  destruct Hn as [<-|[<-|[<-|[<-|[]]]]]; apply tracks_nil.
Qed.

(** A refusal at the limits prunes two queues and appends nothing. *)
Lemma gate_inv_dropped (self : LLMCallGate) (hist : string -> list Q)
    (last now : Q) (stage : string) :
  last <= now -> gate_inv self hist last ->
  gate_inv (count_drop (set_calls self (pruned_calls self stage now)) stage)
           hist now.
Proof.
  intros Hl (Ht & Hh & Hc). repeat split.
  - intros name Hn. simpl. rewrite pruned_calls_lookup.
    repeat case_decide; subst.
    + apply tracks_prune with last; [assumption|]. now apply Ht.
    + apply tracks_prune with last; [assumption|]. now apply Ht.
    + eapply tracks_later; eauto.
  - now apply Hh.
  - eapply Forall_le_later; [exact Hl|]. now apply Hh.
  - exact Hc.
Qed.

(** An admission prunes two queues and appends [now] to both. *)
Lemma gate_inv_admitted (self : LLMCallGate) (hist : string -> list Q)
    (last now : Q) (stage : string) :
  stage ∈ STAGES ->
  last <= now -> gate_inv self hist last ->
  gate_inv (set_calls self (appended_calls self stage now))
           (record hist true stage now) now.
Proof.
  intros Hs Hl (Ht & Hh & Hc).
  assert (Hrec : forall name, name ∈ QUEUES ->
            record hist true stage now name =
            if decide (stage = name) then hist name ++ [now]
            else if decide ("global" = name) then hist name ++ [now]
            else hist name).
  { intros name Hn. unfold record. simpl.
    repeat case_decide; subst.
    - now rewrite feeds_stage.
    - reflexivity.
    - rewrite feeds_other by assumption. apply app_nil_r. }
  repeat split.
  - intros name Hn. simpl. rewrite appended_calls_lookup, (Hrec name Hn).
    repeat case_decide; subst.
    + apply tracks_append, tracks_prune with last; [assumption|]. now apply Ht.
    + apply tracks_append, tracks_prune with last; [assumption|]. now apply Ht.
    + eapply tracks_later; eauto.
  - destruct (Hh name H) as [Hnd Hall]. unfold record.
    destruct (true && feeds name stage); [|now rewrite app_nil_r].
    now apply nondecreasing_app_one, (Forall_le_later _ last).
  - destruct (Hh name H) as [Hnd Hall]. unfold record.
    apply Forall_app. split; [now apply (Forall_le_later _ last)|].
    destruct (true && feeds name stage); repeat constructor. lra.
  - intros c. unfold record. rewrite !in_window_app, !length_app, Hc.
    apply stage_cases in Hs as [-> | [-> | ->]]; simpl;
      destruct (Qle_bool c now); simpl; lia.
Qed.

(** Every [allow] keeps the invariant, for suitable histories; an enabled
    gate records exactly the admitted call. *)
Lemma gate_inv_allow (self self' : LLMCallGate) (hist : string -> list Q)
    (last now : Q) (stage : string) (idx : Z) (b : bool) :
  gate_wf self -> last <= now -> gate_inv self hist last ->
  allow_outcome self stage idx now b self' ->
  (_enabled self = true -> gate_inv self' (record hist b stage now) now)
  /\ exists hist', gate_inv self' hist' now.
Proof.
  intros Hwf Hl Hinv O.
  destruct O as [Hs|lim Hs He|lim Hs He Hp|lim Hs He Hp Hfull|lim Hs He Hp Hg Hlim].
  - assert (H : gate_inv self (record hist false stage now) now).
    { eapply gate_inv_ext; [apply record_false|]. eapply gate_inv_later; eauto. }
    split; eauto.
  - split; [congruence|]. exists hist. eapply gate_inv_later; eauto.
  - assert (H : gate_inv self (record hist false stage now) now).
    { eapply gate_inv_ext; [apply record_false|]. eapply gate_inv_later; eauto. }
    split; eauto.
  - assert (H : gate_inv (count_drop (set_calls self (pruned_calls self stage now)) stage)
                         (record hist false stage now) now).
    { eapply gate_inv_ext; [apply record_false|]. now apply gate_inv_dropped with last. }
    split; eauto.
  - assert (H : gate_inv (set_calls self (appended_calls self stage now))
                         (record hist true stage now) now).
    { apply gate_inv_admitted with last; auto.
      eapply known_stage; eauto. }
    split; eauto.
Qed.

(** A snapshot prunes every queue and reports lengths that add up. *)
Lemma gate_inv_snapshot (self : LLMCallGate) (hist : string -> list Q)
    (last now : Q) :
  last <= now -> gate_inv self hist last ->
  gate_inv (snd (snapshot self now)) hist now
  /\ snapshot_adds_up (fst (snapshot self now)).
Proof.
  intros Hl (Ht & Hh & Hc).
  assert (Hlen : forall name, name ∈ QUEUES ->
            length (_prune (_calls self !!! name) now)
            = length (in_window (now - _WINDOW_SECONDS) (hist name))).
  { intros name Hn. unfold _prune.
    rewrite (Ht name Hn) by lra.
    rewrite pop_stale_sorted; [reflexivity|]. now apply Hh. }
  split.
  - repeat split.
    + intros name Hn. simpl. rewrite pruned_all_lookup.
      apply tracks_prune with last; [assumption|]. now apply Ht.
    + now apply Hh.
    + eapply Forall_le_later; [exact Hl|]. now apply Hh.
    + exact Hc.
  - unfold snapshot, snapshot_adds_up, queue_len. simpl.
    do 4 eexists.
    repeat (split; [reflexivity|]).
    rewrite !pruned_all_lookup.
    rewrite !Hlen by (apply list_elem_of_In; simpl; tauto).
    rewrite Hc. lia.
Qed.

End InvariantFacts.

(* ===================================================================== *)
(** ** The call admission gate: runs *)
(* ===================================================================== *)

Section RunFacts.

Local Open Scope Q_scope.
Local Open Scope list_scope.

Lemma run_calls_cons (self : LLMCallGate) (c : gate_call) (rest : list gate_call) :
  run_calls self (c :: rest) =
  (fst (do_call self c) :: fst (run_calls (snd (do_call self c)) rest),
   snd (run_calls (snd (do_call self c)) rest)).
Proof.
  simpl. destruct (do_call self c) as [a self']. simpl.
  destruct (run_calls self' rest). reflexivity.
Qed.

Lemma do_call_allow (self : LLMCallGate) (stage : string) (idx : Z) (now : Q) :
  do_call self (CallAllow stage idx now) =
  (Answered (fst (allow self stage idx now)), snd (allow self stage idx now)).
Proof. simpl. now destruct (allow self stage idx now). Qed.

Lemma do_call_snapshot (self : LLMCallGate) (now : Q) :
  do_call self (CallSnapshot now) =
  (Reported (fst (snapshot self now)), snd (snapshot self now)).
Proof. reflexivity. Qed.

Lemma snapshot_wf (self : LLMCallGate) (now : Q) :
  gate_wf self -> gate_wf (snd (snapshot self now)).
Proof.
  intros (H1 & H2 & H3 & H4 & H5). repeat split; simpl; try assumption.
  now rewrite dom_fmap_L.
Qed.

Lemma snapshot_config (self : LLMCallGate) (now : Q) :
  same_config self (snd (snapshot self now)).
Proof. repeat split. Qed.

Lemma same_config_trans (a b c : LLMCallGate) :
  same_config a b -> same_config b c -> same_config a c.
Proof.
  intros (A1 & A2 & A3 & A4) (B1 & B2 & B3 & B4).
  repeat split; congruence.
Qed.

(** Every snapshot of a run with a clock that never goes back adds up. *)
Lemma run_calls_adds_up (cs : list gate_call) :
  forall (self : LLMCallGate) (hist : string -> list Q) (last : Q),
    gate_wf self -> gate_inv self hist last -> clock_monotone last cs ->
    Forall answer_adds_up (fst (run_calls self cs)).
Proof.
  induction cs as [|c rest IH]; intros self hist last Hwf Hinv Hclock;
    [constructor|].
  destruct Hclock as [Hl Hrest]. rewrite run_calls_cons. simpl fst.
  destruct c as [stage idx now|now]; simpl call_time in *.
  - rewrite do_call_allow. simpl fst. simpl snd.
    pose proof (allow_outcome_spec self stage idx now) as O.
    destruct (gate_inv_allow _ _ hist last now _ _ _ Hwf Hl Hinv O)
      as [_ [hist' Hinv']].
    constructor; [exact I|].
    eapply IH; eauto. eapply allow_outcome_wf; eauto.
  - rewrite do_call_snapshot. simpl fst. simpl snd.
    destruct (gate_inv_snapshot self hist last now Hl Hinv) as [Hinv' Hsum].
    constructor; [exact Hsum|].
    eapply IH; eauto. now apply snapshot_wf.
Qed.

Lemma admitted_allow (sel : string -> bool) (stage : string) (idx : Z) (now : Q)
    (b : bool) (cs : list gate_call) (answers : list gate_answer) :
  admitted sel (CallAllow stage idx now :: cs) (Answered b :: answers) =
  (if b && sel stage then [now] else []) ++ admitted sel cs answers.
Proof. simpl. destruct b; [|reflexivity]. simpl. now destruct (sel stage). Qed.

(** The queues of an enabled gate follow the stamps of its admitted calls. *)
Lemma run_calls_inv (cs : list gate_call) :
  forall (self : LLMCallGate) (hist : string -> list Q) (last : Q),
    gate_wf self -> _enabled self = true ->
    gate_inv self hist last -> clock_monotone last cs ->
    gate_inv (snd (run_calls self cs))
             (fun name => hist name ++ admitted (feeds name) cs (fst (run_calls self cs)))
             (last_time last cs)
    /\ gate_wf (snd (run_calls self cs))
    /\ same_config self (snd (run_calls self cs)).
Proof.
  induction cs as [|c rest IH]; intros self hist last Hwf He Hinv Hclock.
  - simpl. split; [|split; [assumption|repeat split]].
    eapply gate_inv_ext; [|exact Hinv]. intros name. now rewrite app_nil_r.
  - destruct Hclock as [Hl Hrest]. rewrite run_calls_cons. simpl fst. simpl snd.
    destruct c as [stage idx now|now]; simpl call_time in *; simpl last_time.
    + rewrite do_call_allow. simpl fst. simpl snd.
      pose proof (allow_outcome_spec self stage idx now) as O.
      destruct (gate_inv_allow _ _ hist last now _ _ _ Hwf Hl Hinv O)
        as [Hinv' _].
      specialize (Hinv' He).
      pose proof (allow_outcome_wf _ _ _ _ _ _ Hwf O) as Hwf'.
      pose proof (allow_outcome_config _ _ _ _ _ _ O) as Hcfg.
      assert (He' : _enabled (snd (allow self stage idx now)) = true).
      { destruct Hcfg as [<- _]. exact He. }
      destruct (IH _ _ _ Hwf' He' Hinv' Hrest) as (Hfin & Hwfin & Hcfin).
      split; [|split; [assumption|eapply same_config_trans; eauto]].
      eapply gate_inv_ext; [|exact Hfin].
      intros name. cbv beta. rewrite admitted_allow. unfold record.
      now rewrite app_assoc.
    + rewrite do_call_snapshot. simpl fst. simpl snd.
      destruct (gate_inv_snapshot self hist last now Hl Hinv) as [Hinv' _].
      pose proof (snapshot_wf self now Hwf) as Hwf'.
      destruct (IH _ _ _ Hwf' He Hinv' Hrest) as (Hfin & Hwfin & Hcfin).
      split; [|split; [assumption|]].
      * exact Hfin.
      * eapply same_config_trans; [apply snapshot_config|exact Hcfin].
Qed.

(** After a run, the pruned global queue is the list of the calls admitted
    inside the window. *)
Lemma run_calls_global_queue (G R B E N : Z) (cs : list gate_call) (t0 now : Q) :
  let run := run_calls (new_gate true G R B E N) cs in
  clock_monotone t0 cs -> last_time t0 cs <= now ->
  _prune (_calls (snd run) !!! "global") now
  = admitted_since (now - _WINDOW_SECONDS) cs (fst run).
Proof.
  intros run Hclock Hnow.
  destruct (run_calls_inv cs (new_gate true G R B E N) (fun _ => []) t0
              (new_gate_wf _ _ _ _ _ _) eq_refl (new_gate_inv _ _ _ _ _ _ _) Hclock)
    as ((Ht & Hh & _) & _ & _).
  assert (Hg : "global" ∈ QUEUES) by (apply elem_of_cons; now left).
  unfold _prune. rewrite (Ht "global" Hg) by lra.
  rewrite pop_stale_sorted by now apply Hh.
  reflexivity.
Qed.

End RunFacts.

(* ===================================================================== *)
(** ** Properties of the gate *)
(* ===================================================================== *)

Section SaturationFacts.

(** A call that meets a full global queue is refused; it is counted as a
    drop when it got past the sampling pre-filter, and leaves the gate
    untouched when it did not. *)
Lemma allow_saturated (self : LLMCallGate) (stage : string) (idx : Z) (now : Q) :
  _enabled self = true ->
  (_global_limit self
   <= Z.of_nat (length (_prune (_calls self !!! "global") now)))%Z ->
  fst (allow self stage idx now) = false
  /\ (is_Some (_stage_limits self !! stage) ->
      passes_sampling self stage idx = true ->
      _dropped (snd (allow self stage idx now))
      = <[stage := (_dropped self !!! stage + 1)%Z]> (_dropped self))
  /\ (passes_sampling self stage idx = false ->
      snd (allow self stage idx now) = self).
Proof.
  intros He Hfull.
  destruct (allow_outcome_spec self stage idx now)
    as [Hs|lim Hs He'|lim Hs He' Hp|lim Hs He' Hp Hf|lim Hs He' Hp Hg Hl].
  - split; [reflexivity|]. split; [|reflexivity].
    intros [x Hx]. congruence.
  - congruence.
  - split; [reflexivity|]. split; [|reflexivity]. congruence.
  - split; [reflexivity|]. split; [reflexivity|]. congruence.
  - lia.
Qed.

(** An admission means the pruned global queue was below the ceiling. *)
Lemma allow_admits_below_ceiling (self : LLMCallGate) (stage : string) (idx : Z)
    (now : Q) :
  _enabled self = true ->
  fst (allow self stage idx now) = true ->
  (Z.of_nat (length (_prune (_calls self !!! "global") now)) < _global_limit self)%Z.
Proof.
  intros He Hb.
  destruct (allow_outcome_spec self stage idx now)
    as [Hs|lim Hs He'|lim Hs He' Hp|lim Hs He' Hp Hf|lim Hs He' Hp Hg Hl];
    try discriminate; [congruence|assumption].
Qed.

End SaturationFacts.

(** C3, amended.  Take an enabled gate with global ceiling [G] and a run of
    calls whose clock never goes back.  Once [G] of the calls admitted by
    the run carry a stamp inside the 60-second window that ends at [now],
    every further [allow] at [now], for any stage and index, is refused.  The
    refusal is counted in the stage's drop counter when the stage is one of
    the three and the call got past the sampling pre-filter; a behavior call
    held back by the pre-filter leaves the gate, counters included, as it
    was.  And an enabled gate admits a call only when its pruned global
    queue holds fewer than [G] stamps. *)
Theorem allow_refused_when_saturated :
  (forall (G R B E N : Z) (cs : list gate_call) (t0 now : Q) (stage : string) (idx : Z),
      let gate0 := new_gate true G R B E N in
      let answers := fst (run_calls gate0 cs) in
      let gate := snd (run_calls gate0 cs) in
      clock_monotone t0 cs ->
      (last_time t0 cs <= now)%Q ->
      (_global_limit gate0
       <= Z.of_nat (length (admitted_since (now - _WINDOW_SECONDS) cs answers)))%Z ->
      fst (allow gate stage idx now) = false
      /\ (stage ∈ STAGES ->
          passes_sampling gate stage idx = true ->
          _dropped (snd (allow gate stage idx now))
          = <[stage := (_dropped gate !!! stage + 1)%Z]> (_dropped gate))
      /\ (passes_sampling gate stage idx = false ->
          snd (allow gate stage idx now) = gate))
  /\ (forall (self : LLMCallGate) (stage : string) (idx : Z) (now : Q),
        _enabled self = true ->
        fst (allow self stage idx now) = true ->
        (Z.of_nat (length (_prune (_calls self !!! "global") now))
         < _global_limit self)%Z).
Proof.
  split; [|apply allow_admits_below_ceiling].
  intros G R B E N cs t0 now stage idx gate0 answers gate Hclock Hnow Hfull.
  destruct (run_calls_inv cs gate0 (fun _ => []) t0
              (new_gate_wf _ _ _ _ _ _) eq_refl (new_gate_inv _ _ _ _ _ _ _) Hclock)
    as (_ & Hwf & (He & Hg & _)).
  pose proof (run_calls_global_queue G R B E N cs t0 now Hclock Hnow) as Hq.
  cbv zeta in Hq.
  change (_prune (_calls gate !!! "global") now
          = admitted_since (now - _WINDOW_SECONDS) cs answers) in Hq.
  change (gate_wf gate) in Hwf.
  change (_enabled gate0 = _enabled gate) in He.
  change (_global_limit gate0 = _global_limit gate) in Hg.
  assert (Hfull' : (_global_limit gate
                    <= Z.of_nat (length (_prune (_calls gate !!! "global") now)))%Z).
  { rewrite <- Hg, Hq. exact Hfull. }
  destruct (allow_saturated gate stage idx now (eq_sym He) Hfull')
    as (H1 & H2 & H3).
  split; [exact H1|]. split; [|exact H3].
  intros Hs. apply H2. now apply stage_known.
Qed.

Lemma allow_refused_when_saturated_witness :
  fst (allow saturated_gate "extraction" 0 1) = false
  /\ _dropped (snd (allow saturated_gate "extraction" 0 1)) !! "extraction" = Some 1%Z.
Proof.
  destruct (proj1 allow_refused_when_saturated 1%Z 5%Z 5%Z 5%Z 3%Z saturated_calls
              0%Q 1%Q "extraction" 0%Z)
    as (H1 & H2 & _).
  - simpl. split; [unfold Qle; simpl; lia | exact I].
  - simpl. unfold Qle; simpl; lia.
  - vm_compute. discriminate.
  - split; [exact H1|].
    fold saturated_gate in H2. rewrite H2.
    + vm_compute. reflexivity.
    + apply list_elem_of_In. simpl. tauto.
    + reflexivity.
Defined.

(** C3, counterexample.  The gate is saturated by one admitted call; a
    behavior call with index 2 is then refused by the sampling pre-filter,
    and the drop counter of [behavior] stays at 0. *)
Lemma saturated_sampled_out_not_counted :
  fst (run_calls (new_gate true 1 5 5 5 3) saturated_calls) = [Answered true]
  /\ length (admitted_since (1 - _WINDOW_SECONDS) saturated_calls [Answered true]) = 1
  /\ _dropped saturated_gate !! "behavior" = Some 0%Z
  /\ fst (allow saturated_gate "behavior" 2 1) = false
  /\ _dropped (snd (allow saturated_gate "behavior" 2 1)) !! "behavior" = Some 0%Z.
Proof. vm_compute. repeat split; reflexivity. Qed.

(** C6.  For an enabled gate with sampling interval [N], a behavior call
    passes the sampling pre-filter exactly when its index is at most 1 or
    [(index - 1) mod N = 0]; a call held back by the pre-filter is answered
    [false] and leaves the gate as it was, queues and drop counters
    included; a call that passes it is decided by the sliding window alone
    (refused and counted as a drop when the pruned global queue or the
    pruned behavior queue is at its ceiling, admitted and stamped
    otherwise); with [N = 3] the indices 1 to 7 pass at 1, 4 and 7 only. *)
Theorem behavior_sampling_prefilter (self : LLMCallGate) (idx : Z) (now : Q) :
  gate_wf self ->
  _enabled self = true ->
  (_behavior_sampling_allows self (Z.max 0 idx) = true
   <-> (idx <= 1)%Z \/ ((idx - 1) mod _behavior_sample_n self = 0)%Z)
  /\ (_behavior_sampling_allows self (Z.max 0 idx) = false ->
      allow self "behavior" idx now = (false, self))
  /\ (_behavior_sampling_allows self (Z.max 0 idx) = true ->
      allow self "behavior" idx now =
      if (_global_limit self
          <=? Z.of_nat (length (_prune (_calls self !!! "global") now)))%Z
         || (_stage_limits self !!! "behavior"
             <=? Z.of_nat (length (_prune (_calls self !!! "behavior") now)))%Z
      then (false,
            count_drop (set_calls self (pruned_calls self "behavior" now)) "behavior")
      else (true, set_calls self (appended_calls self "behavior" now)))
  /\ (_behavior_sample_n self = 3%Z ->
      map (fun i => _behavior_sampling_allows self (Z.max 0 i))
          [1; 2; 3; 4; 5; 6; 7]%Z
      = [true; false; false; true; false; false; true]).
Proof.
  intros Hwf He. split; [|split; [|split]].
  - destruct Hwf as (_ & Hn & _). unfold _behavior_sampling_allows.
    destruct (Z.leb_spec (_behavior_sample_n self) 1) as [Hn1|Hn1].
    + assert (E : _behavior_sample_n self = 1%Z) by lia.
      rewrite E, Z.mod_1_r. tauto.
    + destruct (Z.leb_spec (Z.max 0 idx) 1) as [Hi|Hi].
      * split; [intros _; left; lia|reflexivity].
      * rewrite Z.max_r by lia. rewrite Z.eqb_eq.
        split; [now right|]. intros [H|H]; [lia|exact H].
  - intros Hno.
    destruct (stage_known self "behavior" Hwf) as [lim Hlim].
    { apply list_elem_of_In. simpl. tauto. }
    unfold allow. rewrite Hlim, He, Hno. reflexivity.
  - intros Hyes.
    destruct (stage_known self "behavior" Hwf) as [lim Hlim].
    { apply list_elem_of_In. simpl. tauto. }
    assert (Hl : _stage_limits self !!! "behavior" = lim)
      by (rewrite lookup_total_alt, Hlim; reflexivity).
    rewrite Hl. unfold allow. rewrite Hlim, He, Hyes. cbv zeta.
    simpl negb. simpl andb. cbv iota.
    simpl _global_limit. simpl _calls.
    destruct (_global_limit self <=? _)%Z; [reflexivity|].
    destruct (lim <=? _)%Z; reflexivity.
  - intros Hn. unfold _behavior_sampling_allows. rewrite Hn. reflexivity.
Qed.

Lemma behavior_sampling_prefilter_witness :
  allow (new_gate true 5 5 5 5 3) "behavior" 2 0 = (false, new_gate true 5 5 5 5 3)
  /\ fst (allow (new_gate true 5 5 5 5 3) "behavior" 4 0) = true.
Proof.
  destruct (behavior_sampling_prefilter (new_gate true 5 5 5 5 3) 2 0)
    as (_ & Hout & _); [apply new_gate_wf | reflexivity |].
  destruct (behavior_sampling_prefilter (new_gate true 5 5 5 5 3) 4 0)
    as (_ & _ & Hin & _); [apply new_gate_wf | reflexivity |].
  split; [apply Hout; reflexivity|].
  rewrite Hin by reflexivity. reflexivity.
Defined.

(** C10.  In every snapshot of a run whose clock never goes back, starting
    from a fresh gate, the global in-window count is the sum of the reply,
    behavior and extraction in-window counts. *)
Theorem snapshot_counts_add_up (en : bool) (G R B E N : Z) (cs : list gate_call)
    (t0 : Q) (s : LLMGateSnapshot) :
  clock_monotone t0 cs ->
  Reported s ∈ fst (run_calls (new_gate en G R B E N) cs) ->
  exists g r b e : Z,
    in_window_calls s !! "global" = Some g
    /\ in_window_calls s !! "reply" = Some r
    /\ in_window_calls s !! "behavior" = Some b
    /\ in_window_calls s !! "extraction" = Some e
    /\ g = (r + b + e)%Z.
Proof.
  intros Hclock Hin.
  pose proof (run_calls_adds_up cs (new_gate en G R B E N) (fun _ => []) t0
                (new_gate_wf _ _ _ _ _ _) (new_gate_inv _ _ _ _ _ _ _) Hclock) as H.
  rewrite Forall_forall in H. exact (H _ Hin).
Qed.

Lemma snapshot_counts_add_up_witness :
  in_window_calls sample_snapshot !! "global" = Some 2%Z
  /\ exists g r b e : Z,
       in_window_calls sample_snapshot !! "global" = Some g
       /\ in_window_calls sample_snapshot !! "reply" = Some r
       /\ in_window_calls sample_snapshot !! "behavior" = Some b
       /\ in_window_calls sample_snapshot !! "extraction" = Some e
       /\ g = (r + b + e)%Z.
Proof.
  split; [vm_compute; reflexivity|].
  apply (snapshot_counts_add_up true 5 5 5 5 1 sample_calls 0).
  - simpl. repeat split; unfold Qle; simpl; lia.
  - apply list_elem_of_In. vm_compute. tauto.
Defined.

(* ===================================================================== *)
(** ** Further properties of the analyzer: providers and payloads *)
(* ===================================================================== *)

Section OverflowFacts.

Variable rt : runtime.




End OverflowFacts.



(** X2.  When neither client has a key, [analyze] returns the result of the
    rule evaluator as it is, whatever the clients would answer. *)
Theorem analyze_without_credentials (rt : runtime) (text : string)
    (openai gemini : option llm_client) :
  has_key openai = false -> has_key gemini = false ->
  analyze rt text openai gemini = Ok (_rule_based_analysis text).
Proof.
  intros Ho Hg. unfold analyze, _llm_analysis. rewrite Ho, Hg. simpl.
  now destruct (str_empty text).
Qed.

Lemma analyze_without_credentials_witness :
  analyze (fixed_runtime odd_payload) "urgent call"
          (Some {| api_key := Some ""; chat := fun _ => Some "{}" |})
          (Some {| api_key := None; chat := fun _ => Some "{}" |})
  = Ok (_rule_based_analysis "urgent call").
Proof. apply analyze_without_credentials; reflexivity. Defined.

Lemma parse_payload_malformed (rt : runtime) (d : list (string * pyobj)) :
  malformed rt (ODict d) -> parse_payload rt d = Ok None.
Proof.
  unfold malformed, uncoercible, parse_payload.
  intros [[H|H]|[[s Hs] [H|H]]]; try (now rewrite H); now rewrite Hs, H.
Qed.

(** X3.  When every payload the extraction helper hands over is malformed
    (not a [dict], or with a score or a confidence that [float] rejects with
    [TypeError] or [ValueError]), [analyze] returns the rule result. *)
Theorem analyze_discards_malformed (rt : runtime) (text : string)
    (openai gemini : option llm_client) :
  (forall txt, malformed rt (extract_json_object rt txt)) ->
  analyze rt text openai gemini = Ok (_rule_based_analysis text).
Proof.
  intros Hbad. unfold analyze.
  assert (E : _llm_analysis rt text openai gemini = Ok None); [|now rewrite E].
  unfold _llm_analysis.
  destruct (str_empty text); [reflexivity|].
  destruct (negb _); [reflexivity|]. cbv zeta.
  match goal with |- match ?r with Some _ => _ | None => _ end = _ =>
    destruct r as [txt|] end; [|reflexivity].
  destruct (str_empty txt); [reflexivity|].
  specialize (Hbad txt).
  destruct (extract_json_object rt txt); try reflexivity.
  now apply parse_payload_malformed.
Qed.

Lemma analyze_discards_malformed_witness :
  analyze (fixed_runtime (ODict [("riskScore", OStr "high")])) "urgent call"
          (Some (keyed_client "{}")) None
  = Ok (_rule_based_analysis "urgent call").
Proof.
  apply analyze_discards_malformed.
  intros txt. simpl. left. right. reflexivity.
Defined.

(** X4.  A payload that is a [dict] without the four keys counts as a
    judgment of zero risk: [analyze] returns the rule score scaled by 0.6
    (rounded), and the confidence, indicators and category of the rule
    evaluator. *)
Theorem analyze_empty_object (rt : runtime) (text : string)
    (openai gemini : option llm_client) (d : list (string * pyobj)) :
  _llm_analysis rt text openai gemini = parse_payload rt d ->
  dict_lookup d "riskScore" = None ->
  dict_lookup d "confidence" = None ->
  dict_lookup d "indicators" = None ->
  dict_lookup d "categoryHint" = None ->
  let rule := _rule_based_analysis text in
  exists fused,
    analyze rt text openai gemini = Ok fused
    /\ score fused = round2 (fmul (score rule) (Fin (6 # 10)))
    /\ confidence fused = confidence rule
    /\ (forall tag, tag ∈ indicators fused <-> tag ∈ indicators rule)
    /\ category_hint fused = category_hint rule.
Proof.
  intros E H1 H2 H3 H4 rule.
  assert (Ep : parse_payload rt d = Ok (Some zero_result)).
  { unfold parse_payload, dict_get. rewrite H1, H2, H3, H4. reflexivity. }
  rewrite Ep in E. exists (fuse rule zero_result).
  split; [unfold analyze; now rewrite E|].
  pose proof (rule_based_bounded text) as ((a & Ha & Ha0 & Ha1) & Hrc & _).
  pose proof (rule_based_rounded text) as [_ Hrr].
  fold rule in Ha, Hrc, Hrr.
  unfold fuse; simpl. repeat split.
  - rewrite Ha. simpl.
    assert (Hx : (a * (6 # 10) + 0 * (4 # 10) <= 10)%Q)
      by (unfold Qle in *; simpl in *; nia).
    unfold pymin, flt.
    destruct (Qltb _ 10) eqn:Hlt.
    + apply round2_comp. unfold Qeq; simpl; lia.
    + apply Qltb_ge in Hlt. apply round2_comp.
      unfold Qeq, Qle in *; simpl in *; lia.
  - destruct Hrc as (c & Hc & Hc0 & Hc1).
    assert (Hm : pymax (confidence rule) (Fin 0) = confidence rule).
    { rewrite Hc. unfold pymax, flt.
      destruct (Qltb c 0) eqn:Hlt; [|reflexivity].
      apply Qltb_lt in Hlt. exfalso. revert Hlt Hc0. unfold Qlt, Qle. simpl. lia. }
    rewrite Hm, pymin_one_rounded; [exact Hrr| |exact Hrr].
    exists c. auto.
  - rewrite elem_of_sorted_set, app_nil_r. auto.
  - rewrite elem_of_sorted_set, app_nil_r. auto.
Qed.

Lemma analyze_empty_object_witness :
  exists fused,
    analyze (fixed_runtime (ODict [])) "urgent call" (Some (keyed_client "{}")) None
    = Ok fused
    /\ score fused = round2 (fmul (score (_rule_based_analysis "urgent call")) (Fin (6 # 10))).
Proof.
  destruct (analyze_empty_object (fixed_runtime (ODict [])) "urgent call"
              (Some (keyed_client "{}")) None [])
    as (fused & Hf & Hs & _); try reflexivity.
  exists fused. split; [exact Hf | exact Hs].
Defined.

(** X5.  A keyed first client that answers with text decides the judgment:
    the second client plays no part.  When the first client has no key or
    answers nothing, a keyed second client decides it. *)
Theorem provider_order (rt : runtime) (text : string)
    (openai gemini : option llm_client) :
  (has_key openai = true ->
   no_text (call_chat openai (request_for text)) = false ->
   analyze rt text openai gemini = analyze rt text openai None)
  /\ (has_key openai = false \/ no_text (call_chat openai (request_for text)) = true ->
      has_key gemini = true ->
      analyze rt text openai gemini = analyze rt text None gemini).
Proof.
  unfold analyze, _llm_analysis, request_for. split.
  - intros Hk Ht. destruct (str_empty text); [reflexivity|].
    rewrite Hk. simpl. rewrite Ht. simpl. reflexivity.
  - intros Ho Hg. destruct (str_empty text); [reflexivity|].
    rewrite Hg. rewrite orb_true_r. simpl.
    destruct (has_key openai) eqn:Hk.
    + destruct Ho as [Ho|Ho]; [discriminate|]. rewrite Ho. reflexivity.
    + reflexivity.
Qed.

Lemma provider_order_witness :
  analyze (fixed_runtime odd_payload) "urgent call"
          (Some (keyed_client "{}")) (Some (keyed_client ""))
  = analyze (fixed_runtime odd_payload) "urgent call" (Some (keyed_client "{}")) None.
Proof.
  apply (proj1 (provider_order (fixed_runtime odd_payload) "urgent call"
                  (Some (keyed_client "{}")) (Some (keyed_client "")))); reflexivity.
Defined.

(* ===================================================================== *)
(** ** Further properties of the analyzer: the rule evaluator *)
(* ===================================================================== *)

(** The rule result depends on the text through the six searches only. *)
Lemma rule_based_table (text : string) :
  _rule_based_analysis text =
  rule_of_flags (search URGENCY_PATTERN text) (search AUTHORITY_PATTERN text)
                (search REWARD_PATTERN text) (search VERIFY_PATTERN text)
                (search LINK_PRESSURE_PATTERN text) (search ALT_CHANNEL_PATTERN text).
Proof. destruct text; reflexivity. Qed.

(** X6.  Each of the six tags is among the indicators of the rule result
    exactly when its pattern is found in the text. *)
Theorem rule_indicators_follow_patterns (text : string) :
  let inds := indicators (_rule_based_analysis text) in
  str_in "urgency" inds = search URGENCY_PATTERN text
  /\ str_in "authority_impersonation" inds = search AUTHORITY_PATTERN text
  /\ str_in "reward_bait" inds = search REWARD_PATTERN text
  /\ str_in "verification_or_secret_request" inds = search VERIFY_PATTERN text
  /\ str_in "external_link_pressure" inds = search LINK_PRESSURE_PATTERN text
  /\ str_in "alternate_channel_push" inds = search ALT_CHANNEL_PATTERN text.
Proof.
  cbv zeta. rewrite rule_based_table.
  destruct (search URGENCY_PATTERN text), (search AUTHORITY_PATTERN text),
    (search REWARD_PATTERN text), (search VERIFY_PATTERN text),
    (search LINK_PRESSURE_PATTERN text), (search ALT_CHANNEL_PATTERN text);
    vm_compute; repeat split.
Qed.

(** X7.  The category of the rule result follows the priority chain on the
    patterns: reward bait gives [LOTTERY_SCAM]; otherwise link pressure gives
    [PHISHING]; otherwise a credential request together with an authority
    gives [BANK_FRAUD]; otherwise there is none. *)
Theorem rule_category_priority (text : string) :
  category_hint (_rule_based_analysis text) =
  if search REWARD_PATTERN text then Some "LOTTERY_SCAM"
  else if search LINK_PRESSURE_PATTERN text then Some "PHISHING"
  else if search VERIFY_PATTERN text && search AUTHORITY_PATTERN text
  then Some "BANK_FRAUD"
  else None.
Proof.
  rewrite rule_based_table.
  destruct (search URGENCY_PATTERN text), (search AUTHORITY_PATTERN text),
    (search REWARD_PATTERN text), (search VERIFY_PATTERN text),
    (search LINK_PRESSURE_PATTERN text), (search ALT_CHANNEL_PATTERN text);
    reflexivity.
Qed.

(** X8.  The confidence of the rule result is a function of its score:
    [round(min(1.0, score / 8.0), 2)], also when the score was capped
    at 10. *)
Theorem rule_confidence_from_score (text : string) :
  confidence (_rule_based_analysis text) =
  round2 (pymin (Fin 1) (fdiv_const (score (_rule_based_analysis text)) 8)).
Proof.
  rewrite rule_based_table.
  destruct (search URGENCY_PATTERN text), (search AUTHORITY_PATTERN text),
    (search REWARD_PATTERN text), (search VERIFY_PATTERN text),
    (search LINK_PRESSURE_PATTERN text), (search ALT_CHANNEL_PATTERN text);
    vm_compute; reflexivity.
Qed.

(** X9.  The rule result has score 0 exactly when it has no indicator, and
    then it has confidence 0 and no category. *)
Theorem rule_zero_iff_no_indicator (text : string) :
  (score (_rule_based_analysis text) = Fin 0
   <-> indicators (_rule_based_analysis text) = [])
  /\ (indicators (_rule_based_analysis text) = [] ->
      confidence (_rule_based_analysis text) = Fin 0
      /\ category_hint (_rule_based_analysis text) = None).
Proof.
  rewrite rule_based_table.
  destruct (search URGENCY_PATTERN text), (search AUTHORITY_PATTERN text),
    (search REWARD_PATTERN text), (search VERIFY_PATTERN text),
    (search LINK_PRESSURE_PATTERN text), (search ALT_CHANNEL_PATTERN text);
    vm_compute;
    (split; [split; intros H; (reflexivity || discriminate H)
            | intros H; (discriminate H || (split; reflexivity))]).
Qed.

Lemma rule_zero_iff_no_indicator_witness :
  score (_rule_based_analysis "good morning") = Fin 0
  /\ confidence (_rule_based_analysis "good morning") = Fin 0
  /\ category_hint (_rule_based_analysis "good morning") = None.
Proof.
  assert (H : indicators (_rule_based_analysis "good morning") = [])
    by (vm_compute; reflexivity).
  split.
  - apply (proj1 (rule_zero_iff_no_indicator "good morning")). exact H.
  - apply (proj2 (rule_zero_iff_no_indicator "good morning")). exact H.
Defined.

(* ===================================================================== *)
(** ** Further properties of the analyzer: the fusion *)
(* ===================================================================== *)

Section FusionBounds.

Local Open Scope Q_scope.

(** The nearest integer is within one half. *)
Lemma Qround_half_even_near (q : Q) :
  inject_Z (Qround_half_even q) - (1 # 2) <= q
  /\ q <= inject_Z (Qround_half_even q) + (1 # 2).
Proof.
  pose proof (Qfloor_le q) as Hlo. pose proof (Qlt_floor q) as Hhi.
  rewrite inject_Z_plus in Hhi. change (inject_Z 1) with 1 in Hhi.
  unfold Qround_half_even.
  destruct (Qcompare_spec (q - inject_Z (Qfloor q)) (1 # 2)) as [E|E|E].
  - destruct (Z.even (Qfloor q)).
    + split; lra.
    + rewrite inject_Z_plus. change (inject_Z 1) with 1. split; lra.
  - split; lra.
  - rewrite inject_Z_plus. change (inject_Z 1) with 1. split; lra.
Qed.

(** [round(x, 2)] is within half a hundredth of [x]. *)
Lemma round2_near (x : Q) :
  exists q, round2 (Fin x) = Fin q /\ x - (1 # 200) <= q /\ q <= x + (1 # 200).
Proof.
  simpl. eexists. split; [reflexivity|].
  destruct (Qround_half_even_near (x * 100)) as [Hlo Hhi].
  set (z := Qround_half_even (x * 100)) in *.
  rewrite (Qred_correct (z # 100)).
  assert (Ez : z # 100 == inject_Z z / 100).
  { unfold Qeq, Qdiv, Qmult, Qinv, inject_Z. simpl. lia. }
  rewrite Ez. split.
  - apply Qle_shift_div_l; lra.
  - apply Qle_shift_div_r; lra.
Qed.

Lemma fle_pymax_l (a b : Q) : fle (Fin a) (pymax (Fin a) (Fin b)) = true.
Proof.
  unfold pymax, flt. destruct (Qltb a b) eqn:E; simpl.
  - apply Qltb_lt in E. apply Qle_bool_iff. lra.
  - apply Qle_bool_iff. lra.
Qed.

Lemma fle_pymax_r (a b : Q) : fle (Fin b) (pymax (Fin a) (Fin b)) = true.
Proof.
  unfold pymax, flt. destruct (Qltb a b) eqn:E; simpl.
  - apply Qle_bool_iff. lra.
  - apply Qltb_ge in E. now apply Qle_bool_iff.
Qed.

End FusionBounds.

(** X10.  A judgment moves the fused score only inside a band fixed by the
    rule score [a]: the fused score lies between [0.6 a] and [0.6 a + 4], up
    to the half hundredth of the rounding. *)
Theorem fused_score_band (rt : runtime) (text : string)
    (openai gemini : option llm_client) (j fused : BehavioralAnalysisResult) :
  _llm_analysis rt text openai gemini = Ok (Some j) ->
  analyze rt text openai gemini = Ok fused ->
  exists a q,
    score (_rule_based_analysis text) = Fin a
    /\ score fused = Fin q
    /\ ((6 # 10) * a - (1 # 200) <= q)%Q
    /\ (q <= (6 # 10) * a + 4 + (1 # 200))%Q.
Proof.
  intros E Hf. unfold analyze in Hf. rewrite E in Hf. injection Hf as <-.
  pose proof (rule_based_bounded text) as ((a & Ha & Ha0 & Ha1) & _).
  pose proof (llm_analysis_bounded _ _ _ _ _ E) as ((b & Hb & Hb0 & Hb1) & _).
  exists a. unfold fuse; simpl. rewrite Ha, Hb. simpl.
  set (x := (a * (6 # 10) + b * (4 # 10))%Q).
  assert (Hx0 : ((6 # 10) * a <= x)%Q) by (unfold x; lra).
  assert (Hx1 : (x <= (6 # 10) * a + 4)%Q) by (unfold x; lra).
  assert (Hx10 : (x <= 10)%Q) by (unfold x; lra).
  assert (Hmin : round2 (pymin (Fin 10) (Fin x)) = round2 (Fin x)).
  { unfold pymin, flt. destruct (Qltb x 10) eqn:Hlt; [reflexivity|].
    apply Qltb_ge in Hlt. apply round2_comp. lra. }
  rewrite Hmin. destruct (round2_near x) as (q & Hq & Hlo & Hhi).
  exists q. repeat split; [exact Hq | lra | lra].
Qed.

Lemma fused_score_band_witness :
  exists a q,
    score (_rule_based_analysis "urgent call") = Fin a
    /\ score (fuse (_rule_based_analysis "urgent call")
                   odd_judgment) = Fin q
    /\ ((6 # 10) * a - (1 # 200) <= q)%Q
    /\ (q <= (6 # 10) * a + 4 + (1 # 200))%Q.
Proof.
  apply (fused_score_band (fixed_runtime odd_payload) "urgent call"
           (Some (keyed_client "{}")) None odd_judgment); vm_compute; reflexivity.
Defined.

(** X11.  The fused confidence is the larger of the two confidences: a
    judgment can raise the confidence of the rule evaluator and cannot lower
    it. *)
Theorem fused_confidence_is_max (rt : runtime) (text : string)
    (openai gemini : option llm_client) (j fused : BehavioralAnalysisResult) :
  _llm_analysis rt text openai gemini = Ok (Some j) ->
  analyze rt text openai gemini = Ok fused ->
  confidence fused = pymax (confidence (_rule_based_analysis text)) (confidence j)
  /\ fle (confidence (_rule_based_analysis text)) (confidence fused) = true
  /\ fle (confidence j) (confidence fused) = true.
Proof.
  intros E Hf. unfold analyze in Hf. rewrite E in Hf. injection Hf as <-.
  pose proof (rule_based_bounded text) as (_ & Hrc & _).
  pose proof (llm_analysis_bounded _ _ _ _ _ E) as (_ & Hjc & _).
  pose proof (rule_based_rounded text) as [_ Hrr].
  pose proof (llm_analysis_rounded _ _ _ _ _ E) as Hjr.
  set (rule := _rule_based_analysis text) in *.
  assert (Hm : within 0 1 (pymax (confidence rule) (confidence j)))
    by now apply pymax_within.
  assert (Hmr : round2 (pymax (confidence rule) (confidence j))
                = pymax (confidence rule) (confidence j))
    by now apply pymax_rounded.
  assert (Hc : confidence (fuse rule j) = pymax (confidence rule) (confidence j)).
  { unfold fuse; simpl. now rewrite (pymin_one_rounded _ Hm Hmr). }
  split; [exact Hc|]. rewrite Hc.
  destruct Hrc as (a & -> & _). destruct Hjc as (b & -> & _).
  split; [apply fle_pymax_l | apply fle_pymax_r].
Qed.

Lemma fused_confidence_is_max_witness :
  fle (confidence (_rule_based_analysis "urgent call"))
      (confidence (fuse (_rule_based_analysis "urgent call")
                        odd_judgment)) = true.
Proof.
  apply (fused_confidence_is_max (fixed_runtime odd_payload) "urgent call"
           (Some (keyed_client "{}")) None odd_judgment); vm_compute; reflexivity.
Defined.

(* ===================================================================== *)
(** ** Further properties of the analyzer: the tags of a judgment *)
(* ===================================================================== *)

Section StripFacts.

Lemma lstrip_head (s : string) (c : ascii) (r : string) :
  lstrip s = String c r -> is_space c = false.
Proof.
  induction s as [|x s IH]; simpl; [discriminate|].
  destruct (is_space x) eqn:E; [exact IH|].
  intros H. injection H as <- _. exact E.
Qed.

Lemma rstrip_cons (c : ascii) (s : string) :
  rstrip (String c s) =
  match rstrip s with
  | EmptyString => if is_space c then EmptyString else String c EmptyString
  | r' => String c r'
  end.
Proof. reflexivity. Qed.

Lemma rstrip_idem (s : string) : rstrip (rstrip s) = rstrip s.
Proof.
  induction s as [|c s IH]; [reflexivity|].
  rewrite rstrip_cons.
  destruct (rstrip s) as [|c' r'] eqn:E.
  - destruct (is_space c) eqn:Hc; [reflexivity|].
    rewrite rstrip_cons. simpl. now rewrite Hc.
  - rewrite rstrip_cons, IH. reflexivity.
Qed.

Lemma rstrip_keeps_head (c : ascii) (r : string) :
  is_space c = false -> exists r', rstrip (String c r) = String c r'.
Proof.
  intros Hc. simpl. destruct (rstrip r).
  - rewrite Hc. eauto.
  - eauto.
Qed.

Lemma lstrip_fixed (c : ascii) (r : string) :
  is_space c = false -> lstrip (String c r) = String c r.
Proof. intros Hc. simpl. now rewrite Hc. Qed.

(** Stripping twice is stripping once. *)
Lemma strip_idem (s : string) : strip (strip s) = strip s.
Proof.
  unfold strip. destruct (lstrip s) as [|c r] eqn:E; [reflexivity|].
  pose proof (lstrip_head s c r E) as Hc.
  destruct (rstrip_keeps_head c r Hc) as [r' Hr]. rewrite Hr.
  rewrite (lstrip_fixed c r' Hc), <- Hr. apply rstrip_idem.
Qed.

End StripFacts.

Lemma parse_payload_tags (rt : runtime) (d : list (string * pyobj))
    (j : BehavioralAnalysisResult) (tag : string) :
  parse_payload rt d = Ok (Some j) ->
  tag ∈ indicators j ->
  tag <> "" /\ exists i, tag = strip (py_str rt i).
Proof.
  unfold parse_payload.
  destruct (py_float rt (dict_get d "riskScore" _)) as [s|[| |]];
    try discriminate.
  destruct (py_float rt (dict_get d "confidence" _)) as [c|[| |]];
    try discriminate.
  intros H. injection H as <-. simpl. rewrite elem_of_sorted_set.
  destruct (if truthy _ then _ else _); try (intros H; now inversion H).
  rewrite list_elem_of_filter. intros [Hne Hin].
  apply list_elem_of_fmap in Hin as (i & -> & _).
  split; [|eauto]. intros E. rewrite E in Hne. exact Hne.
Qed.

(** X12.  Every tag of a judgment result is a non-empty string, and a tag
    made of ASCII characters has no white space at either end: stripping it
    again changes nothing. *)
Theorem judgment_tags_stripped (rt : runtime) (text : string)
    (openai gemini : option llm_client) (j : BehavioralAnalysisResult)
    (tag : string) :
  _llm_analysis rt text openai gemini = Ok (Some j) ->
  tag ∈ indicators j ->
  tag <> "" /\ (ascii_only tag = true -> strip tag = tag).
Proof.
  intros E Hin.
  destruct (llm_analysis_payload _ _ _ _ _ E) as [H|[d H]]; [discriminate|].
  symmetry in H.
  destruct (parse_payload_tags rt d j tag H Hin) as [Hne [i ->]].
  split; [exact Hne | intros _; apply strip_idem].
Qed.

Lemma judgment_tags_stripped_witness :
  "urgency" <> "" /\ strip "urgency" = "urgency".
Proof.
  destruct (judgment_tags_stripped (fixed_runtime odd_payload) "urgent call"
              (Some (keyed_client "{}")) None odd_judgment "urgency")
    as [Hne Hs].
  - vm_compute. reflexivity.
  - apply list_elem_of_In. simpl. tauto.
  - split; [exact Hne | apply Hs; reflexivity].
Defined.

(* ===================================================================== *)
(** ** Further properties of the analyzer: letter case *)
(* ===================================================================== *)

Section CaseFacts.

Ltac all_chars c := destruct c as [[] [] [] [] [] [] [] []]; reflexivity.

Lemma is_word_lower (c : ascii) : is_word (to_lower c) = is_word c.
Proof. all_chars c. Qed.

Lemma is_digit_lower (c : ascii) : is_digit (to_lower c) = is_digit c.
Proof. all_chars c. Qed.

Lemma is_space_lower (c : ascii) : is_space (to_lower c) = is_space c.
Proof. all_chars c. Qed.

Lemma newline_lower (c : ascii) :
  Ascii.eqb (to_lower c) "010"%char = Ascii.eqb c "010"%char.
Proof. all_chars c. Qed.

Lemma same_letter_class (p : ascii -> bool) (a b : ascii) :
  (forall c, p (to_lower c) = p c) -> same_letter a b -> p a = p b.
Proof. intros Hp E. rewrite <- (Hp a), <- (Hp b). now rewrite E. Qed.

Lemma same_letters_inv (s t : string) :
  same_letters s t ->
  match s, t with
  | EmptyString, EmptyString => True
  | String a s', String b t' => same_letter a b /\ same_letters s' t'
  | _, _ => False
  end.
Proof.
  unfold same_letters, same_letter.
  destruct s, t; simpl; intros H; try discriminate; [exact I|].
  injection H as H1 H2. auto.
Qed.

Lemma same_letters_length (s t : string) :
  same_letters s t -> String.length s = String.length t.
Proof.
  revert t. induction s as [|a s IH]; intros t H;
    apply same_letters_inv in H; destruct t; try contradiction; [reflexivity|].
  destruct H as [_ H]. simpl. f_equal. now apply IH.
Qed.

Lemma same_letters_boundary (p q : option ascii) (s t : string) :
  same_letter_opt p q -> same_letters s t -> at_boundary p s = at_boundary q t.
Proof.
  intros Hp Hs. unfold at_boundary. f_equal.
  - destruct p as [a|], q as [b|]; try discriminate; [|reflexivity].
    simpl. apply same_letter_class; [apply is_word_lower|].
    injection Hp as Hp. exact Hp.
  - apply same_letters_inv in Hs. destruct s, t; try contradiction; [reflexivity|].
    simpl. apply same_letter_class; [apply is_word_lower|]. tauto.
Qed.

Lemma one_char_case (p : ascii -> bool) (s t : string)
    (k1 k2 : option ascii -> string -> bool) :
  (forall a b, same_letter a b -> p a = p b) ->
  same_letters s t -> same_cont k1 k2 ->
  one_char p s k1 = one_char p t k2.
Proof.
  intros Hp Hs Hk. apply same_letters_inv in Hs.
  destruct s as [|a s], t as [|b t]; try contradiction; [reflexivity|].
  destruct Hs as [Hab Hst]. simpl. f_equal; [now apply Hp|].
  apply Hk; [|exact Hst]. unfold same_letter_opt. simpl. now rewrite Hab.
Qed.

(** A match does not depend on the case of the letters of the text. *)
Lemma matches_case (r : regex) :
  forall p q s t k1 k2,
    same_letter_opt p q -> same_letters s t -> same_cont k1 k2 ->
    matches r p s k1 = matches r q t k2.
Proof.
  induction r as [|c| | | | |a IHa b IHb|a IHa b IHb|a IHa];
    intros p q s t k1 k2 Hp Hs Hk; simpl.
  - now apply Hk.
  - apply one_char_case; auto. intros x y E. unfold same_letter in E. now rewrite E.
  - apply one_char_case; auto. intros x y E.
    now apply same_letter_class; [apply is_digit_lower|].
  - apply one_char_case; auto. intros x y E. f_equal.
    now apply same_letter_class; [apply is_space_lower|].
  - apply one_char_case; auto. intros x y E. f_equal.
    now apply (same_letter_class (fun c => Ascii.eqb c "010"%char));
      [apply newline_lower|].
  - f_equal; [now apply same_letters_boundary | now apply Hk].
  - apply IHa; auto. intros p' q' s' t' Hp' Hs'. now apply IHb.
  - f_equal; [now apply IHa | now apply IHb].
  - rewrite (same_letters_length s t Hs).
    generalize (String.length t) as fuel. intros fuel.
    revert p q s t Hp Hs.
    induction fuel as [|fuel IHf]; intros p q s t Hp Hs.
    + f_equal. now apply Hk.
    + f_equal; [now apply Hk|].
      apply IHa; auto. intros p' q' s' t' Hp' Hs'.
      rewrite (same_letters_length s' t' Hs'), (same_letters_length s t Hs).
      f_equal. now apply IHf.
Qed.

Lemma search_from_case (r : regex) (s : string) :
  forall t p q, same_letter_opt p q -> same_letters s t ->
                search_from r p s = search_from r q t.
Proof.
  induction s as [|a s IH]; intros t p q Hp Hs;
    pose proof (same_letters_inv _ _ Hs) as Hi;
    destruct t as [|b t]; try contradiction; simpl.
  - f_equal. apply matches_case; auto. intros ? ? ? ? _ _. reflexivity.
  - destruct Hi as [Hab Hst]. f_equal.
    + apply matches_case; auto. intros ? ? ? ? _ _. reflexivity.
    + apply IH; [|exact Hst]. unfold same_letter_opt. simpl. now rewrite Hab.
Qed.

Lemma search_case (r : regex) (s t : string) :
  same_letters s t -> search r s = search r t.
Proof. intros H. unfold search. now apply search_from_case. Qed.

End CaseFacts.

(** X13.  The rule evaluator does not see letter case: two texts of ASCII
    characters that differ in the case of their letters only get the same
    result. *)
Theorem rule_based_ignores_case (s t : string) :
  ascii_only s = true -> ascii_only t = true ->
  lower s = lower t -> _rule_based_analysis s = _rule_based_analysis t.
Proof.
  intros _ _ H. rewrite !rule_based_table.
  now rewrite !(search_case _ s t H).
Qed.

Lemma rule_based_ignores_case_witness :
  _rule_based_analysis "URGENT: call the Bank" = _rule_based_analysis "urgent: CALL the bank".
Proof. apply rule_based_ignores_case; reflexivity. Defined.

(* ===================================================================== *)
(** ** Further properties of the gate: pruning and ceilings *)
(* ===================================================================== *)

Section PruneFacts.

Local Open Scope Q_scope.
Local Open Scope list_scope.

Lemma pop_stale_split (c : Q) (l : list Q) :
  exists stale,
    l = stale ++ pop_stale c l
    /\ Forall (fun t => t < c) stale
    /\ match pop_stale c l with
       | t :: _ => c <= t
       | [] => True
       end.
Proof.
  induction l as [|a l (stale & E & Hs & Hh)]; simpl.
  - exists []. repeat split. constructor.
  - destruct (Qltb a c) eqn:Ha.
    + apply Qltb_lt in Ha. exists (a :: stale). repeat split; auto.
      simpl. now f_equal.
    + apply Qltb_ge in Ha. exists []. repeat split; auto.
  Qed.

Lemma in_window_stale (c : Q) (l : list Q) :
  Forall (fun t => t < c) l -> in_window c l = [].
Proof.
  induction 1 as [|a l Ha Hl IH]; simpl; [reflexivity|].
  assert (E : Qle_bool c a = false).
  { apply not_true_iff_false. rewrite Qle_bool_iff. lra. }
  now rewrite E.
Qed.

Lemma in_window_pop_stale (c : Q) (l : list Q) :
  in_window c (pop_stale c l) = in_window c l.
Proof.
  induction l as [|a l IH]; simpl; [reflexivity|].
  unfold Qltb. destruct (Qle_bool c a) eqn:E; simpl; [now rewrite E|exact IH].
Qed.

Lemma pop_stale_all (c : Q) (l : list Q) :
  Forall (fun t => t < c) l -> pop_stale c l = [].
Proof.
  induction 1 as [|a l Ha Hl IH]; simpl; [reflexivity|].
  assert (E : Qltb a c = true) by now apply Qltb_lt.
  now rewrite E.
Qed.

Lemma prune_length (queue : list Q) (now : Q) :
  (length (_prune queue now) <= length queue)%nat.
Proof.
  unfold _prune. induction queue as [|a l IH]; simpl; [lia|].
  destruct (Qltb a _); simpl; lia.
Qed.

End PruneFacts.

(** X14.  Pruning removes a prefix of stale stamps and nothing else: the
    queue is that prefix followed by what is kept, the head of what is kept
    is inside the window, and every stamp inside the window is kept,
    whatever the order of the stamps. *)
Theorem prune_removes_stale_prefix (queue : list Q) (now : Q) :
  (exists stale,
      queue = (stale ++ _prune queue now)%list
      /\ Forall (fun t => (t < now - _WINDOW_SECONDS)%Q) stale
      /\ match _prune queue now with
         | t :: _ => (now - _WINDOW_SECONDS <= t)%Q
         | [] => True
         end)
  /\ in_window (now - _WINDOW_SECONDS) (_prune queue now)
     = in_window (now - _WINDOW_SECONDS) queue.
Proof.
  unfold _prune.
  destruct (pop_stale_split (now - _WINDOW_SECONDS) queue) as (stale & E & Hs & Hh).
  split; [exists stale; auto|]. apply in_window_pop_stale.
Qed.

Section LimitFacts.

Lemma within_limits_allow (self self' : LLMCallGate) (stage : string) (idx : Z)
    (now : Q) (b : bool) :
  gate_wf self -> within_limits self ->
  allow_outcome self stage idx now b self' -> within_limits self'.
Proof.
  intros Hwf [Hg Hst] O.
  assert (Hng : forall st lim, _stage_limits self !! st = Some lim -> st <> "global").
  { intros st lim H ->.
    assert (Hin : "global" ∈ STAGES) by (eapply known_stage; eauto).
    apply list_elem_of_In in Hin. simpl in Hin.
    repeat (destruct Hin as [Hin|Hin]; [discriminate Hin|]). exact Hin. }
  pose proof prune_length as Hp.
  destruct O as [Hs|lim Hs He|lim Hs He Hp'|lim Hs He Hp' Hfull|lim Hs He Hp' Hlg Hls];
    try (split; assumption).
  - split; simpl.
    + rewrite pruned_calls_lookup. repeat case_decide; subst.
      * exfalso. eapply Hng; eauto.
      * specialize (Hp (_calls self !!! "global") now). lia.
      * congruence.
    + intros st l Hl. rewrite pruned_calls_lookup.
      specialize (Hst st l Hl).
      repeat case_decide; subst.
      * specialize (Hp (_calls self !!! st) now). lia.
      * exfalso. eapply Hng; eauto.
      * exact Hst.
  - split; simpl.
    + rewrite appended_calls_lookup. repeat case_decide; subst.
      * exfalso. eapply Hng; eauto.
      * rewrite length_app. simpl. lia.
      * congruence.
    + intros st l Hl. rewrite appended_calls_lookup.
      specialize (Hst st l Hl).
      repeat case_decide; subst.
      * rewrite length_app. simpl.
        assert (l = lim) by congruence. subst. lia.
      * exfalso. eapply Hng; eauto.
      * exact Hst.
Qed.

Lemma within_limits_snapshot (self : LLMCallGate) (now : Q) :
  within_limits self -> within_limits (snd (snapshot self now)).
Proof.
  intros [Hg Hst]. pose proof prune_length as Hp. split; simpl.
  - rewrite pruned_all_lookup. specialize (Hp (_calls self !!! "global") now). lia.
  - intros st l Hl. rewrite pruned_all_lookup.
    specialize (Hst st l Hl). specialize (Hp (_calls self !!! st) now). lia.
Qed.

Lemma fresh_queue_empty (en : bool) (G R B E N : Z) (name : string) :
  _calls (new_gate en G R B E N) !!! name = [].
Proof.
  simpl. rewrite lookup_total_alt.
  destruct (_ !! name) as [q|] eqn:X; [|reflexivity].
  rewrite !lookup_insert in X.
  repeat (case_decide; [injection X as <-; reflexivity|]).
  apply lookup_singleton_Some in X as [_ <-]. reflexivity.
Qed.

Lemma fresh_limit_positive (en : bool) (G R B E N : Z) (stage : string) (limit : Z) :
  _stage_limits (new_gate en G R B E N) !! stage = Some limit -> (1 <= limit)%Z.
Proof.
  simpl. intros Hl. rewrite !lookup_insert in Hl.
  repeat (case_decide; [injection Hl as <-; lia|]).
  apply lookup_singleton_Some in Hl as [_ <-]. lia.
Qed.

Lemma new_gate_within_limits (en : bool) (G R B E N : Z) :
  within_limits (new_gate en G R B E N).
Proof.
  split.
  - rewrite fresh_queue_empty. simpl. lia.
  - intros st l Hl. rewrite fresh_queue_empty.
    apply fresh_limit_positive in Hl. simpl. lia.
Qed.

Lemma stage_limit_total (self : LLMCallGate) (stage : string) :
  gate_wf self -> stage ∈ STAGES ->
  _stage_limits self !! stage = Some (_stage_limits self !!! stage).
Proof.
  intros Hwf Hs. destruct (stage_known self stage Hwf Hs) as [l Hl].
  now rewrite lookup_total_alt, Hl.
Qed.

Lemma snapshot_reports_within_limits (self : LLMCallGate) (now : Q) :
  gate_wf self -> within_limits self ->
  snapshot_within_limits (fst (snapshot self now)).
Proof.
  intros Hwf Hlim.
  destruct (within_limits_snapshot self now Hlim) as [Hg Hst].
  simpl in Hg, Hst.
  assert (Hk : forall st, st ∈ STAGES ->
            (queue_len (set_calls self ((fun q => _prune q now) <$> _calls self)) st
             <= _stage_limits self !!! st)%Z).
  { intros st Hin. apply Hst. now apply stage_limit_total. }
  repeat split.
  - do 2 eexists. split; [reflexivity|]. split; [reflexivity|]. exact Hg.
  - do 2 eexists. split; [reflexivity|]. split; [reflexivity|].
    apply Hk. apply list_elem_of_In. simpl. tauto.
  - do 2 eexists. split; [reflexivity|]. split; [reflexivity|].
    apply Hk. apply list_elem_of_In. simpl. tauto.
  - do 2 eexists. split; [reflexivity|]. split; [reflexivity|].
    apply Hk. apply list_elem_of_In. simpl. tauto.
Qed.

(** Whatever the clock does, the queues of a run stay within the ceilings. *)
Lemma run_calls_within_limits (cs : list gate_call) :
  forall self : LLMCallGate,
    gate_wf self -> within_limits self ->
    Forall answer_within_limits (fst (run_calls self cs))
    /\ within_limits (snd (run_calls self cs)).
Proof.
  induction cs as [|c rest IH]; intros self Hwf Hlim; [split; [constructor|assumption]|].
  rewrite run_calls_cons. simpl fst. simpl snd.
  destruct c as [stage idx now|now].
  - rewrite do_call_allow. simpl fst. simpl snd.
    pose proof (allow_outcome_spec self stage idx now) as O.
    destruct (IH _ (allow_outcome_wf _ _ _ _ _ _ Hwf O)
                 (within_limits_allow _ _ _ _ _ _ Hwf Hlim O)) as [Ha Hf].
    split; [constructor; [exact I|exact Ha] | exact Hf].
  - rewrite do_call_snapshot. simpl fst. simpl snd.
    destruct (IH _ (snapshot_wf self now Hwf) (within_limits_snapshot self now Hlim))
      as [Ha Hf].
    split; [constructor; [|exact Ha] | exact Hf].
    now apply snapshot_reports_within_limits.
Qed.

End LimitFacts.

(** X15.  Whatever the clock readings, every snapshot of a run from a fresh
    gate reports in-window counts that are at most the limits it reports:
    the global count at most [globalRpm], and each stage count at most the
    limit of its stage. *)
Theorem snapshot_counts_within_limits (en : bool) (G R B E N : Z)
    (cs : list gate_call) (s : LLMGateSnapshot) :
  Reported s ∈ fst (run_calls (new_gate en G R B E N) cs) ->
  snapshot_within_limits s.
Proof.
  intros Hin.
  destruct (run_calls_within_limits cs (new_gate en G R B E N)
              (new_gate_wf _ _ _ _ _ _) (new_gate_within_limits _ _ _ _ _ _))
    as [H _].
  rewrite Forall_forall in H. exact (H _ Hin).
Qed.

Lemma snapshot_counts_within_limits_witness :
  snapshot_within_limits sample_snapshot.
Proof.
  apply (snapshot_counts_within_limits true 5 5 5 5 1 sample_calls).
  apply list_elem_of_In. vm_compute. tauto.
Defined.

(** X16.  The rate limit: in a run of an enabled gate whose clock never goes
    back, the calls admitted inside the 60-second window that ends at [now]
    are never more than the global ceiling. *)
Theorem admitted_in_window_bounded (G R B E N : Z) (cs : list gate_call)
    (t0 now : Q) :
  let gate0 := new_gate true G R B E N in
  clock_monotone t0 cs ->
  (last_time t0 cs <= now)%Q ->
  (Z.of_nat (length (admitted_since (now - _WINDOW_SECONDS) cs
                       (fst (run_calls gate0 cs))))
   <= _global_limit gate0)%Z.
Proof.
  intros gate0 Hclock Hnow.
  pose proof (run_calls_global_queue G R B E N cs t0 now Hclock Hnow) as Hq.
  cbv zeta in Hq. fold gate0 in Hq. rewrite <- Hq.
  destruct (run_calls_within_limits cs gate0
              (new_gate_wf _ _ _ _ _ _) (new_gate_within_limits _ _ _ _ _ _))
    as [_ [Hg _]].
  destruct (run_calls_inv cs gate0 (fun _ => []) t0
              (new_gate_wf _ _ _ _ _ _) eq_refl (new_gate_inv _ _ _ _ _ _ _) Hclock)
    as (_ & _ & (_ & Hcfg & _)).
  rewrite Hcfg.
  pose proof (prune_length (_calls (snd (run_calls gate0 cs)) !!! "global") now).
  lia.
Qed.

Lemma admitted_in_window_bounded_witness :
  (Z.of_nat (length (admitted_since (75 - _WINDOW_SECONDS) sample_calls
                       (fst (run_calls (new_gate true 5 5 5 5 1) sample_calls))))
   <= _global_limit (new_gate true 5 5 5 5 1))%Z.
Proof.
  apply (admitted_in_window_bounded 5 5 5 5 1 sample_calls 0 75).
  - simpl. repeat split; unfold Qle; simpl; lia.
  - simpl. unfold Qle; simpl; lia.
Defined.

(* ===================================================================== *)
(** ** Further properties of the gate: recovery, drops, the open gate *)
(* ===================================================================== *)

Section RecoveryFacts.

Local Open Scope Q_scope.

Lemma stale_history (hist : list Q) (last now : Q) :
  last + _WINDOW_SECONDS < now ->
  Forall (fun t => t <= last) hist ->
  Forall (fun t => t < now - _WINDOW_SECONDS) hist.
Proof.
  intros Hl Hall.
  eapply Forall_impl; [exact Hall|]. cbv beta. intros t Ht. lra.
Qed.

(** A queue whose history is older than the window is emptied by a prune. *)
Lemma tracked_queue_stale (q hist : list Q) (last now : Q) :
  last + _WINDOW_SECONDS < now ->
  tracks q hist last -> Forall (fun t => t <= last) hist ->
  _prune q now = [].
Proof.
  intros Hl Ht Hall. unfold _prune. rewrite (Ht (now - _WINDOW_SECONDS))
    by (unfold _WINDOW_SECONDS in *; lra).
  apply pop_stale_all. now apply stale_history with last.
Qed.

End RecoveryFacts.

(** X17.  An enabled gate recovers: in a run whose clock never goes back,
    a call that comes more than 60 seconds after the last call, for one of
    the three stages and past the sampling pre-filter, is admitted, whatever
    was admitted or dropped before and however small the configured limits.
    With no call before, this is the first call on a fresh gate. *)
Theorem allow_after_silence (G R B E N : Z) (cs : list gate_call) (t0 now : Q)
    (stage : string) (idx : Z) :
  let gate := snd (run_calls (new_gate true G R B E N) cs) in
  clock_monotone t0 cs ->
  (last_time t0 cs + _WINDOW_SECONDS < now)%Q ->
  stage ∈ STAGES ->
  passes_sampling gate stage idx = true ->
  fst (allow gate stage idx now) = true.
Proof.
  intros gate Hclock Hnow Hstage Hpass.
  destruct (run_calls_inv cs (new_gate true G R B E N) (fun _ => []) t0
              (new_gate_wf _ _ _ _ _ _) eq_refl (new_gate_inv _ _ _ _ _ _ _) Hclock)
    as ((Ht & Hh & _) & Hwf & (He & _ & Hlim & _)).
  fold gate in Ht, Hwf, He, Hlim.
  assert (Hempty : forall name, name ∈ QUEUES -> _prune (_calls gate !!! name) now = []).
  { intros name Hn.
    apply tracked_queue_stale with (hist := ([] ++ admitted (feeds name) cs
                                                 (fst (run_calls (new_gate true G R B E N) cs)))%list)
                                   (last := last_time t0 cs);
      [exact Hnow | now apply Ht | now apply Hh]. }
  destruct (allow_outcome_spec gate stage idx now)
    as [Hs|lim Hs He'|lim Hs He' Hp|lim Hs He' Hp Hfull|lim Hs He' Hp Hg Hl];
    try reflexivity.
  - destruct (stage_known gate stage Hwf Hstage) as [l Hl]. congruence.
  - congruence.
  - rewrite !Hempty in Hfull
      by (try (apply stage_in_queues; exact Hstage); apply elem_of_cons; now left).
    simpl in Hfull. destruct Hwf as (HG & _).
    rewrite <- Hlim in Hs. apply fresh_limit_positive in Hs. lia.
Qed.

Lemma allow_after_silence_witness :
  fst (allow saturated_gate "behavior" 4 61) = true.
Proof.
  apply (allow_after_silence 1 5 5 5 3 saturated_calls 0 61 "behavior" 4).
  - simpl. split; [unfold Qle; simpl; lia | exact I].
  - simpl. unfold Qlt; simpl; lia.
  - apply list_elem_of_In. simpl. tauto.
  - reflexivity.
Defined.

Section DropFacts.

Lemma passes_sampling_config (a b : LLMCallGate) (stage : string) (idx : Z) :
  same_config a b -> passes_sampling a stage idx = passes_sampling b stage idx.
Proof.
  intros (_ & _ & _ & Hn). unfold passes_sampling, _behavior_sampling_allows.
  now rewrite Hn.
Qed.

Lemma refused_ext (p1 p2 : string -> Z -> bool) (stage : string)
    (cs : list gate_call) (answers : list gate_answer) :
  (forall st idx, p1 st idx = p2 st idx) ->
  refused p1 stage cs answers = refused p2 stage cs answers.
Proof.
  intros Hp. revert answers.
  induction cs as [|c cs IH]; intros answers; [reflexivity|].
  destruct c as [st idx now|now], answers as [|[b|s] answers]; simpl;
    try reflexivity; try apply IH.
  now rewrite Hp, IH.
Qed.

(** One call moves the drop counter of [stage] by one exactly when it is a
    call for [stage] that got past the pre-filter and was refused. *)
Lemma allow_outcome_dropped (self self' : LLMCallGate) (st stage : string)
    (idx : Z) (now : Q) (b : bool) :
  gate_wf self -> _enabled self = true -> stage ∈ STAGES ->
  allow_outcome self st idx now b self' ->
  _dropped self' !!! stage
  = (_dropped self !!! stage
     + (if String.eqb st stage && negb b && passes_sampling self st idx
        then 1 else 0))%Z.
Proof.
  intros Hwf He Hstage O.
  destruct O as [Hs|lim Hs He'|lim Hs He' Hp|lim Hs He' Hp Hfull|lim Hs He' Hp Hg Hl].
  - destruct (String.eqb_spec st stage) as [->|Hne]; simpl; [|lia].
    destruct (stage_known self stage Hwf Hstage) as [l Hl]. congruence.
  - congruence.
  - rewrite Hp, andb_false_r. lia.
  - rewrite Hp. simpl. unfold count_drop. simpl.
    rewrite lookup_total_insert.
    destruct (String.eqb_spec st stage) as [->|Hne]; simpl.
    + rewrite decide_True by reflexivity. reflexivity.
    + rewrite decide_False by exact Hne. lia.
  - simpl. rewrite andb_false_r. simpl. lia.
Qed.

Lemma run_calls_dropped (cs : list gate_call) :
  forall (self : LLMCallGate) (stage : string),
    gate_wf self -> _enabled self = true -> stage ∈ STAGES ->
    _dropped (snd (run_calls self cs)) !!! stage
    = (_dropped self !!! stage
       + refused (passes_sampling self) stage cs (fst (run_calls self cs)))%Z.
Proof.
  induction cs as [|c rest IH]; intros self stage Hwf He Hstage; [simpl; lia|].
  rewrite run_calls_cons. simpl fst. simpl snd.
  destruct c as [st idx now|now].
  - rewrite do_call_allow. simpl fst. simpl snd.
    pose proof (allow_outcome_spec self st idx now) as O.
    pose proof (allow_outcome_config _ _ _ _ _ _ O) as Hcfg.
    assert (He' : _enabled (snd (allow self st idx now)) = true).
    { destruct Hcfg as [<- _]. exact He. }
    rewrite (IH _ stage (allow_outcome_wf _ _ _ _ _ _ Hwf O) He' Hstage).
    rewrite (allow_outcome_dropped _ _ _ stage _ _ _ Hwf He Hstage O).
    simpl refused.
    rewrite (refused_ext (passes_sampling (snd (allow self st idx now)))
                         (passes_sampling self)).
    + lia.
    + intros st' idx'. symmetry. now apply passes_sampling_config.
  - rewrite do_call_snapshot. cbn [fst snd].
    rewrite (IH (snd (snapshot self now)) stage (snapshot_wf self now Hwf) He Hstage).
    reflexivity.
Qed.

End DropFacts.

Lemma run_calls_wf (cs : list gate_call) :
  forall self : LLMCallGate, gate_wf self -> gate_wf (snd (run_calls self cs)).
Proof.
  induction cs as [|c rest IH]; intros self Hwf; [exact Hwf|].
  rewrite run_calls_cons. simpl snd. apply IH.
  destruct c as [st idx now|now].
  - rewrite do_call_allow. simpl snd.
    eapply allow_outcome_wf; [exact Hwf|apply allow_outcome_spec].
  - rewrite do_call_snapshot. simpl snd. now apply snapshot_wf.
Qed.

(** X18.  The drop counter of a stage counts exactly the calls for that
    stage that got past the sampling pre-filter and were refused; calls held
    back by the pre-filter, admitted calls and snapshots never move it.
    This holds for every run of an enabled gate, whatever the clock. *)
Theorem dropped_counts_refusals (G R B E N : Z) (cs : list gate_call)
    (stage : string) :
  let gate0 := new_gate true G R B E N in
  stage ∈ STAGES ->
  _dropped (snd (run_calls gate0 cs)) !! stage
  = Some (refused (passes_sampling gate0) stage cs (fst (run_calls gate0 cs))).
Proof.
  intros gate0 Hstage.
  pose proof (run_calls_dropped cs gate0 stage (new_gate_wf _ _ _ _ _ _) eq_refl Hstage) as H.
  assert (H0 : _dropped gate0 !!! stage = 0%Z).
  { apply stage_cases in Hstage as [-> | [-> | ->]]; reflexivity. }
  rewrite H0, Z.add_0_l in H.
  pose proof (run_calls_wf cs gate0 (new_gate_wf _ _ _ _ _ _)) as (_ & _ & _ & _ & Hd).
  assert (Hsome : is_Some (_dropped (snd (run_calls gate0 cs)) !! stage)).
  { apply elem_of_dom. rewrite Hd. now apply elem_of_list_to_set. }
  destruct Hsome as [d Hd'].
  rewrite lookup_total_alt, Hd' in H.
  change (default inhabitant (Some d)) with d in H.
  rewrite Hd'. now f_equal.
Qed.

Lemma dropped_counts_refusals_witness :
  _dropped (snd (run_calls (new_gate true 1 5 5 5 3)
                   [CallAllow "reply" 0 0; CallAllow "reply" 0 1;
                    CallAllow "behavior" 2 2; CallAllow "behavior" 4 3]))
  !! "behavior" = Some 1%Z.
Proof.
  rewrite (dropped_counts_refusals 1 5 5 5 3 _ "behavior").
  - vm_compute. reflexivity.
  - apply list_elem_of_In. simpl. tauto.
Defined.

Section OpenGateFacts.

Lemma disabled_allow (G R B E N : Z) (stage : string) (idx : Z) (now : Q) :
  allow (new_gate false G R B E N) stage idx now
  = (bool_decide (stage ∈ STAGES), new_gate false G R B E N).
Proof.
  pose proof (new_gate_wf false G R B E N) as Hwf.
  unfold allow. destruct (decide (stage ∈ STAGES)) as [Hin|Hout].
  - destruct (stage_known _ stage Hwf Hin) as [l Hl]. rewrite Hl.
    now rewrite bool_decide_eq_true_2.
  - destruct (_ !! stage) as [l|] eqn:Hl.
    + exfalso. apply Hout. eapply known_stage; eauto.
    + now rewrite bool_decide_eq_false_2.
Qed.

Lemma disabled_snapshot (G R B E N : Z) (now : Q) :
  snd (snapshot (new_gate false G R B E N) now) = new_gate false G R B E N.
Proof. reflexivity. Qed.

Lemma disabled_run (G R B E N : Z) (cs : list gate_call) :
  snd (run_calls (new_gate false G R B E N) cs) = new_gate false G R B E N
  /\ forall i stage idx now,
       cs !! i = Some (CallAllow stage idx now) ->
       fst (run_calls (new_gate false G R B E N) cs) !! i
       = Some (Answered (bool_decide (stage ∈ STAGES))).
Proof.
  induction cs as [|c rest [IHs IHa]]; [split; [reflexivity|intros; discriminate]|].
  rewrite run_calls_cons.
  assert (Hstep : snd (do_call (new_gate false G R B E N) c) = new_gate false G R B E N).
  { destruct c as [stage idx now|now].
    - rewrite do_call_allow, disabled_allow. reflexivity.
    - rewrite do_call_snapshot. apply disabled_snapshot. }
  rewrite Hstep. split; [exact IHs|].
  intros [|i] stage idx now Hi; simpl in Hi.
  - injection Hi as ->. rewrite do_call_allow, disabled_allow. reflexivity.
  - simpl. exact (IHa i stage idx now Hi).
Qed.

End OpenGateFacts.

(** X19.  A gate that is not enabled stays as the constructor made it,
    whatever is called: it records no stamp and counts no drop; it answers
    [true] to every call for one of the three stages and [false] to a call
    for any other stage. *)
Theorem disabled_gate_is_open (G R B E N : Z) (cs : list gate_call) :
  let gate0 := new_gate false G R B E N in
  snd (run_calls gate0 cs) = gate0
  /\ forall i stage idx now,
       cs !! i = Some (CallAllow stage idx now) ->
       fst (run_calls gate0 cs) !! i = Some (Answered (bool_decide (stage ∈ STAGES))).
Proof. apply disabled_run. Qed.

Lemma disabled_gate_is_open_witness :
  fst (run_calls (new_gate false 1 1 1 1 3)
         [CallAllow "reply" 0 0; CallAllow "behavior" 2 0; CallAllow "other" 0 0])
  !! 1%nat = Some (Answered (bool_decide ("behavior" ∈ STAGES))).
Proof.
  apply (proj2 (disabled_gate_is_open 1 1 1 1 3 _) 1%nat "behavior" 2%Z 0%Q).
  reflexivity.
Defined.

(** X20.  The sampling pre-filter never starves the behavior stage: among
    any [N] consecutive message indices, [N] the sampling interval, at least
    one passes. *)
Theorem sampling_never_starves (self : LLMCallGate) (idx : Z) :
  gate_wf self ->
  exists k : Z,
    (0 <= k < _behavior_sample_n self)%Z
    /\ _behavior_sampling_allows self (Z.max 0 (idx + k)) = true.
Proof.
  intros (_ & Hn & _). unfold _behavior_sampling_allows.
  set (N := _behavior_sample_n self) in *.
  destruct (Z.leb_spec N 1) as [Hn1|Hn1]; [exists 0%Z; split; [lia|reflexivity]|].
  destruct (Z.leb_spec idx 1) as [Hi|Hi].
  { exists 0%Z. split; [lia|]. rewrite Z.add_0_r.
    destruct (Z.leb_spec (Z.max 0 idx) 1); [reflexivity|lia]. }
  pose proof (Z.div_mod (idx - 1) N ltac:(lia)) as Hdm.
  pose proof (Z.mod_pos_bound (idx - 1) N ltac:(lia)) as Hr.
  set (q := ((idx - 1) / N)%Z) in *. set (r := ((idx - 1) mod N)%Z) in *.
  destruct (Z.eq_dec r 0%Z) as [Hr0|Hr0].
  - exists 0%Z. split; [lia|]. rewrite Z.add_0_r, Z.max_r by lia.
    destruct (Z.leb_spec idx 1); [reflexivity|]. fold r. now apply Z.eqb_eq.
  - exists (N - r)%Z. split; [lia|]. rewrite Z.max_r by lia.
    destruct (Z.leb_spec (idx + (N - r)) 1); [reflexivity|].
    apply Z.eqb_eq.
    replace (idx + (N - r) - 1)%Z with ((q + 1) * N)%Z by lia.
    apply Z_mod_mult.
Qed.

Lemma sampling_never_starves_witness :
  exists k : Z,
    (0 <= k < 3)%Z
    /\ _behavior_sampling_allows (new_gate true 5 5 5 5 3) (Z.max 0 (5 + k)) = true.
Proof.
  apply (sampling_never_starves (new_gate true 5 5 5 5 3) 5).
  apply new_gate_wf.
Defined.

(* ===================================================================== *)
(** ** Further properties of the gate: snapshots do not disturb *)
(* ===================================================================== *)

Section AgreeFacts.

Local Open Scope Q_scope.
Local Open Scope list_scope.

Lemma tracks_refl (q : list Q) (last : Q) : tracks q q last.
Proof. intros c _. reflexivity. Qed.

Lemma prune_agree (q1 q2 : list Q) (last now : Q) :
  last <= now -> tracks q1 q2 last -> _prune q1 now = _prune q2 now.
Proof. intros Hl Ht. unfold _prune. apply Ht. lra. Qed.

Lemma tracks_pruned (q : list Q) (now : Q) : tracks q (_prune q now) now.
Proof.
  intros c Hc. unfold _prune. symmetry. now apply pop_stale_twice.
Qed.

Lemma allow_agree (a b : LLMCallGate) (last now : Q) (st : string) (idx : Z) :
  gate_wf a -> last <= now -> gates_agree last a b ->
  fst (allow a st idx now) = fst (allow b st idx now)
  /\ gates_agree now (snd (allow a st idx now)) (snd (allow b st idx now)).
Proof.
  intros Hwf Hl ((He & Hg & Hs & Hn) & Hd & Hq).
  assert (Hlater : gates_agree now a b).
  { repeat split; auto. intros name Hin. eapply tracks_later; eauto. }
  unfold allow. rewrite <- Hs.
  destruct (_stage_limits a !! st) as [lim|] eqn:Hlim; [|split; [reflexivity|exact Hlater]].
  rewrite <- He. destruct (_enabled a) eqn:Ea; simpl negb; cbv iota;
    [|split; [reflexivity|exact Hlater]].
  assert (Hp : _behavior_sampling_allows b (Z.max 0 idx)
               = _behavior_sampling_allows a (Z.max 0 idx)).
  { unfold _behavior_sampling_allows. now rewrite Hn. }
  rewrite Hp.
  destruct (String.eqb st "behavior" && negb _); [split; [reflexivity|exact Hlater]|].
  assert (Hst : st ∈ QUEUES).
  { apply stage_in_queues. eapply known_stage; eauto. }
  assert (HG : "global" ∈ QUEUES) by (apply elem_of_cons; now left).
  cbv zeta. unfold count_drop. simpl _global_limit. simpl _calls. simpl _dropped.
  rewrite <- Hg, <- Hd.
  rewrite <- (prune_agree _ _ last now Hl (Hq "global" HG)).
  rewrite <- (prune_agree _ _ last now Hl (Hq st Hst)).
  set (pg := _prune (_calls a !!! "global") now).
  set (ps := _prune (_calls a !!! st) now).
  assert (Hpruned : forall name, name ∈ QUEUES ->
            tracks ((<[st := ps]> (<["global" := pg]> (_calls a))) !!! name)
                   ((<[st := ps]> (<["global" := pg]> (_calls b))) !!! name) now).
  { intros name Hin. rewrite !lookup_total_insert.
    repeat case_decide; try apply tracks_refl.
    eapply tracks_later; eauto. }
  destruct (_global_limit a <=? _)%Z.
  { split; [reflexivity|]. repeat split; simpl; auto; congruence. }
  destruct (lim <=? _)%Z.
  { split; [reflexivity|]. repeat split; simpl; auto; congruence. }
  split; [reflexivity|]. repeat split; simpl; auto; try congruence.
  intros name Hin. rewrite !lookup_total_insert.
  repeat case_decide; try apply tracks_refl.
  eapply tracks_later; eauto.
Qed.

Lemma snapshot_agree (a b : LLMCallGate) (last now : Q) :
  last <= now -> gates_agree last a b ->
  fst (snapshot a now) = fst (snapshot b now)
  /\ gates_agree now (snd (snapshot a now)) (snd (snapshot b now)).
Proof.
  intros Hl ((He & Hg & Hs & Hn) & Hd & Hq).
  assert (Hp : forall name, name ∈ QUEUES ->
            _prune (_calls a !!! name) now = _prune (_calls b !!! name) now).
  { intros name Hin. eapply prune_agree; eauto. }
  split.
  - unfold snapshot, queue_len. simpl.
    rewrite !pruned_all_lookup.
    rewrite !Hp by (apply list_elem_of_In; simpl; tauto).
    now rewrite He, Hg, Hs, Hd.
  - repeat split; auto. intros name Hin. simpl.
    rewrite !pruned_all_lookup, (Hp name Hin). apply tracks_refl.
Qed.

(** Gates that agree answer a run alike. *)
Lemma run_calls_agree (cs : list gate_call) :
  forall (a b : LLMCallGate) (last : Q),
    gate_wf a -> gates_agree last a b -> clock_monotone last cs ->
    fst (run_calls a cs) = fst (run_calls b cs).
Proof.
  induction cs as [|c rest IH]; intros a b last Hwf Hag Hclock; [reflexivity|].
  destruct Hclock as [Hl Hrest]. rewrite !run_calls_cons. cbn [fst].
  destruct c as [st idx now|now]; simpl call_time in *.
  - rewrite !do_call_allow. cbn [fst snd].
    destruct (allow_agree a b last now st idx Hwf Hl Hag) as [Hb Hag'].
    rewrite Hb. f_equal.
    apply (IH _ _ now); auto.
    eapply allow_outcome_wf; [exact Hwf|apply allow_outcome_spec].
  - rewrite !do_call_snapshot. cbn [fst snd].
    destruct (snapshot_agree a b last now Hl Hag) as [Hb Hag'].
    rewrite Hb. f_equal.
    apply (IH _ _ now); auto. now apply snapshot_wf.
Qed.

Lemma snapshot_agrees_with_self (self : LLMCallGate) (now : Q) :
  gates_agree now self (snd (snapshot self now)).
Proof.
  repeat split. intros name Hin. simpl. rewrite pruned_all_lookup.
  apply tracks_pruned.
Qed.

Lemma run_calls_app (cs1 cs2 : list gate_call) :
  forall self : LLMCallGate,
    run_calls self (cs1 ++ cs2) =
    (fst (run_calls self cs1) ++ fst (run_calls (snd (run_calls self cs1)) cs2),
     snd (run_calls (snd (run_calls self cs1)) cs2)).
Proof.
  induction cs1 as [|c cs1 IH]; intros self.
  - simpl. now destruct (run_calls self cs2).
  - change ((c :: cs1) ++ cs2) with (c :: (cs1 ++ cs2)).
    rewrite !run_calls_cons, IH. reflexivity.
Qed.

Lemma run_calls_length (cs : list gate_call) :
  forall self : LLMCallGate, length (fst (run_calls self cs)) = length cs.
Proof.
  induction cs as [|c cs IH]; intros self; [reflexivity|].
  rewrite run_calls_cons. simpl. now rewrite IH.
Qed.

Lemma clock_monotone_app (cs1 cs2 : list gate_call) :
  forall t0, clock_monotone t0 (cs1 ++ cs2) ->
             clock_monotone t0 cs1 /\ clock_monotone (last_time t0 cs1) cs2.
Proof.
  induction cs1 as [|c cs1 IH]; intros t0 H; [split; [exact I|exact H]|].
  destruct H as [Hc H]. destruct (IH _ H) as [H1 H2].
  split; [split; assumption|exact H2].
Qed.

End AgreeFacts.

(** X21.  A snapshot does not disturb the gate: in a run whose clock never
    goes back, taking one snapshot out leaves every other answer, of
    [allow] and of the other snapshots, as it was. *)
Theorem snapshot_is_transparent (en : bool) (G R B E N : Z)
    (cs1 cs2 : list gate_call) (t0 t : Q) :
  let gate0 := new_gate en G R B E N in
  let answers := fst (run_calls gate0 (cs1 ++ CallSnapshot t :: cs2)) in
  clock_monotone t0 (cs1 ++ CallSnapshot t :: cs2) ->
  fst (run_calls gate0 (cs1 ++ cs2))
  = (take (length cs1) answers ++ drop (S (length cs1)) answers)%list.
Proof.
  intros gate0 answers Hclock. subst answers.
  rewrite !run_calls_app. cbn [fst].
  set (a1 := fst (run_calls gate0 cs1)).
  set (g1 := snd (run_calls gate0 cs1)).
  assert (Hlen : length a1 = length cs1) by apply run_calls_length.
  rewrite run_calls_cons, do_call_snapshot. cbn [fst snd].
  rewrite <- Hlen.
  rewrite take_app_length.
  replace (S (length a1)) with (length a1 + 1)%nat by lia.
  rewrite drop_app_add. cbn [drop].
  f_equal.
  destruct (clock_monotone_app cs1 (CallSnapshot t :: cs2) t0 Hclock) as [_ [_ H2]].
  simpl call_time in H2.
  apply (run_calls_agree cs2 g1 (snd (snapshot g1 t)) t).
  - apply run_calls_wf, new_gate_wf.
  - apply snapshot_agrees_with_self.
  - exact H2.
Qed.

Lemma snapshot_is_transparent_witness :
  fst (run_calls (new_gate true 2 5 5 5 1)
         ([CallAllow "reply" 0 0; CallAllow "reply" 0 10]
          ++ [CallAllow "reply" 0 65; CallSnapshot 70]))
  = (take 2 (fst (run_calls (new_gate true 2 5 5 5 1)
                    ([CallAllow "reply" 0 0; CallAllow "reply" 0 10]
                     ++ CallSnapshot 30 :: [CallAllow "reply" 0 65; CallSnapshot 70])))
     ++ drop 3 (fst (run_calls (new_gate true 2 5 5 5 1)
                       ([CallAllow "reply" 0 0; CallAllow "reply" 0 10]
                        ++ CallSnapshot 30 :: [CallAllow "reply" 0 65; CallSnapshot 70]))))%list.
Proof.
  apply (snapshot_is_transparent true 2 5 5 5 1
           [CallAllow "reply" 0 0; CallAllow "reply" 0 10]
           [CallAllow "reply" 0 65; CallSnapshot 70] 0 30).
  simpl. repeat split; unfold Qle; simpl; lia.
Defined.

(* ===================================================================== *)
(** ** Further properties of the strategy classifier *)
(* ===================================================================== *)

(** X22.  The detected flag only pushes the tier up: with the other inputs
    fixed, the tier with the flag set is at least the tier without it, and
    it is never below Extraction Mode. *)
Theorem infer_strategy_state_detected (state : SessionState) (s : pyfloat)
    (actionable turns : option Z) :
  exists r0 r1,
    tier_rank (infer_strategy_state state (Some s) (Some false) actionable turns) = Some r0
    /\ tier_rank (infer_strategy_state state (Some s) (Some true) actionable turns) = Some r1
    /\ r0 <= r1 /\ 2 <= r1.
Proof.
  rewrite !infer_strategy_state_cases. cbv zeta. simpl if_none.
  set (h := orb _ _).
  destruct (flt s (Fin 3)), (flt s (Fin 6)), (flt s (Fin 10)), h; simpl;
    do 2 eexists; (split; [reflexivity|]); (split; [reflexivity|]); lia.
Qed.

(** X23.  The two top tiers are reached exactly when the score is not below
    10; a score that is not a number is not below 10, so it always gives one
    of them. *)
Theorem infer_strategy_state_top (state : SessionState) (s : pyfloat)
    (detected : option bool) (actionable turns : option Z) :
  (exists r,
      tier_rank (infer_strategy_state state (Some s) detected actionable turns) = Some r
      /\ (3 <= r <-> flt s (Fin 10) = false))
  /\ (exists r,
        tier_rank (infer_strategy_state state (Some NaN) detected actionable turns) = Some r
        /\ 3 <= r).
Proof.
  rewrite !infer_strategy_state_cases. cbv zeta.
  set (d := if_none (scam_detected state) detected).
  set (h := orb _ _).
  pose proof (flt_threshold_step s 3 6 ltac:(unfold Qle; simpl; lia)) as S36.
  pose proof (flt_threshold_step s 6 10 ltac:(unfold Qle; simpl; lia)) as S610.
  split.
  - destruct (flt s (Fin 3)), (flt s (Fin 6)), (flt s (Fin 10)), d, h; simpl;
      try (specialize (S36 eq_refl); discriminate S36);
      try (specialize (S610 eq_refl); discriminate S610);
      eexists; (split; [reflexivity|]); split; intros H;
      first [reflexivity | discriminate H | lia].
  - destruct d, h; simpl; eexists; (split; [reflexivity|]); lia.
Qed.

Lemma infer_strategy_state_top_witness :
  exists r,
    tier_rank (infer_strategy_state sample_session (Some NaN) (Some false) None None) = Some r
    /\ 3 <= r.
Proof.
  apply (proj2 (infer_strategy_state_top sample_session NaN (Some false) None None)).
Defined.

(** X24.  Progress of the engagement never makes the tier more aggressive:
    with score and flag fixed, more actionable categories or more agent turns
    give the same tier, or move High Confidence Scam down to Intelligence
    Harvest Mode, and nothing else. *)
Theorem infer_strategy_state_depth (state : SessionState) (s : pyfloat)
    (detected : option bool) (a1 a2 t1 t2 : Z) :
  (a1 <= a2)%Z -> (t1 <= t2)%Z ->
  let tier1 := infer_strategy_state state (Some s) detected (Some a1) (Some t1) in
  let tier2 := infer_strategy_state state (Some s) detected (Some a2) (Some t2) in
  (tier2 = tier1
   \/ (tier1 = STRATEGY_HIGH_CONFIDENCE /\ tier2 = STRATEGY_HARVEST_MODE))
  /\ exists r1 r2,
       tier_rank tier1 = Some r1 /\ tier_rank tier2 = Some r2 /\ r2 <= r1.
Proof.
  intros Ha Ht. cbv zeta. rewrite !infer_strategy_state_cases. cbv zeta. simpl if_none.
  set (d := if_none (scam_detected state) detected).
  destruct (Z.leb_spec 3 a1), (Z.leb_spec 3 a2), (Z.leb_spec 5 t1), (Z.leb_spec 5 t2);
    try lia;
    destruct (flt s (Fin 3)), (flt s (Fin 6)), (flt s (Fin 10)), d; simpl;
    (split;
     [ first [left; reflexivity | right; split; reflexivity]
     | do 2 eexists; (split; [reflexivity|]); (split; [reflexivity|]); lia ]).
Qed.

Lemma infer_strategy_state_depth_witness :
  infer_strategy_state sample_session (Some (Fin 10)) None (Some 0%Z) (Some 4%Z)
  = STRATEGY_HIGH_CONFIDENCE
  /\ infer_strategy_state sample_session (Some (Fin 10)) None (Some 0%Z) (Some 5%Z)
     = STRATEGY_HARVEST_MODE.
Proof.
  destruct (infer_strategy_state_depth sample_session (Fin 10) None 0 0 4 5)
    as [[H|H] _]; [lia | lia | discriminate H | exact H].
Defined.

(* ===================================================================== *)
(** ** Further properties of the engagement finalizer *)
(* ===================================================================== *)

Section ElapsedFacts.

(** Sixty whole seconds have elapsed exactly when sixty seconds have. *)
Lemma sixty_elapsed (q : Q) : (60 <=? int_of_Q q)%Z = Qle_bool 60 q.
Proof.
  destruct q as [n d]. unfold int_of_Q. simpl Qnum. simpl Qden.
  apply eq_true_iff_eq. rewrite Z.leb_le, Qle_bool_iff.
  unfold Qle. simpl Qnum. simpl Qden. rewrite Z.mul_1_r.
  destruct (Z.le_gt_cases 0 n) as [Hn|Hn].
  - rewrite Z.quot_div_nonneg by lia. split; intros H.
    + pose proof (Z.mul_div_le n (Z.pos d) ltac:(lia)). nia.
    + apply Z.div_le_lower_bound; lia.
  - assert (Hq : (Z.quot n (Z.pos d) <= 0)%Z).
    { replace n with (- (- n))%Z by lia. rewrite Z.quot_opp_l by lia.
      pose proof (Z.quot_pos (- n) (Z.pos d) ltac:(lia) ltac:(lia)). lia. }
    split; intros H; lia.
Qed.

Lemma elapsed_later (t now1 now2 : Q) :
  (now1 <= now2)%Q ->
  Qle_bool 60 (now1 - t) = true -> Qle_bool 60 (now2 - t) = true.
Proof. rewrite !Qle_bool_iff. intros. lra. Qed.

(** [should_finalize] with its four conditions spelled out. *)
Lemma should_finalize_cases (state : SessionState) (now : Q) :
  let long_enough :=
    match first_scam_timestamp state with
    | Some t => Qle_bool 60 (now - t)
    | None => false
    end in
  should_finalize state now =
  negb (finalized state) && scam_detected state
  && ((12 <=? agent_turns state)%Z
      || has_payment_id (intel state)
         && (2 <=? actionable_category_count (intel state))%Z
         && (5 <=? agent_turns state)%Z
         && (10 <=? scammer_messages state + agent_turns state)%Z
         && long_enough
      || (3 <=? actionable_category_count (intel state))%Z
         && (10 <=? agent_turns state)%Z && long_enough
      || (12 <=? scammer_messages state)%Z
         && (10 <=? agent_turns state)%Z && long_enough).
Proof.
  cbv zeta. unfold should_finalize.
  fold (has_payment_id (intel state)).
  assert (E : (60 <=? match first_scam_timestamp state with
                      | Some t => int_of_Q (now - t)
                      | None => 0
                      end)%Z
              = match first_scam_timestamp state with
                | Some t => Qle_bool 60 (now - t)
                | None => false
                end).
  { destruct (first_scam_timestamp state); [apply sixty_elapsed|reflexivity]. }
  rewrite E.
  destruct (finalized state), (scam_detected state); simpl; try reflexivity.
  destruct (12 <=? agent_turns state)%Z; [reflexivity|]. simpl.
  repeat match goal with
         | |- context [if ?b then true else _] => destruct b; try reflexivity
         end.
Qed.

End ElapsedFacts.

Section RoundedElapsedFacts.

Local Open Scope Q_scope.

Lemma Qround_half_even_monotone (p q : Q) :
  p <= q -> (Qround_half_even p <= Qround_half_even q)%Z.
Proof.
  intros Hpq. pose proof (Qfloor_resp_le _ _ Hpq) as Hf.
  destruct (Z.eq_dec (Qfloor p) (Qfloor q)) as [E|NE].
  - unfold Qround_half_even. rewrite E.
    destruct (Qcompare_spec (p - inject_Z (Qfloor q)) (1 # 2)) as [H1|H1|H1],
             (Qcompare_spec (q - inject_Z (Qfloor q)) (1 # 2)) as [H2|H2|H2];
      try (destruct (Z.even (Qfloor q))); try lia; exfalso; lra.
  - destruct (Qround_half_even_cases p) as [-> | [-> _]],
             (Qround_half_even_cases q) as [-> | [-> _]]; lia.
Qed.

Lemma round_near_60_monotone (x y : Q) :
  x <= y -> round_near_60 x <= round_near_60 y.
Proof.
  intros H. unfold round_near_60, Qle. simpl Qnum. simpl Qden.
  apply Z.mul_le_mono_nonneg_r; [lia|].
  apply Qround_half_even_monotone.
  apply Qmult_le_compat_r; [exact H|]. unfold Qle. simpl. lia.
Qed.

Lemma round_near_60_whole : round_near_60 59 == 59.
Proof. vm_compute. reflexivity. Qed.

(** [should_finalize] is [should_finalize_rounded] without rounding. *)
Lemma should_finalize_rounded_exact (state : SessionState) (now : Q) :
  should_finalize_rounded (fun q => q) state now = should_finalize state now.
Proof. reflexivity. Qed.

(** [should_finalize_rounded] with its four conditions spelled out. *)
Lemma should_finalize_rounded_cases (rnd : Q -> Q) (state : SessionState) (now : Q) :
  let long_enough :=
    match first_scam_timestamp state with
    | Some t => Qle_bool 60 (rnd (now - t)%Q)
    | None => false
    end in
  should_finalize_rounded rnd state now =
  negb (finalized state) && scam_detected state
  && ((12 <=? agent_turns state)%Z
      || has_payment_id (intel state)
         && (2 <=? actionable_category_count (intel state))%Z
         && (5 <=? agent_turns state)%Z
         && (10 <=? scammer_messages state + agent_turns state)%Z
         && long_enough
      || (3 <=? actionable_category_count (intel state))%Z
         && (10 <=? agent_turns state)%Z && long_enough
      || (12 <=? scammer_messages state)%Z
         && (10 <=? agent_turns state)%Z && long_enough).
Proof.
  cbv zeta. unfold should_finalize_rounded.
  fold (has_payment_id (intel state)).
  assert (E : (60 <=? match first_scam_timestamp state with
                      | Some t => int_of_Q (rnd (now - t)%Q)
                      | None => 0
                      end)%Z
              = match first_scam_timestamp state with
                | Some t => Qle_bool 60 (rnd (now - t)%Q)
                | None => false
                end).
  { destruct (first_scam_timestamp state); [apply sixty_elapsed|reflexivity]. }
  rewrite E.
  destruct (finalized state), (scam_detected state); simpl; try reflexivity.
  destruct (12 <=? agent_turns state)%Z; [reflexivity|]. simpl.
  repeat match goal with
         | |- context [if ?b then true else _] => destruct b; try reflexivity
         end.
Qed.

End RoundedElapsedFacts.

(** X25.  What finalizing requires, whatever the subtraction of the two
    clock readings rounds to (the rounding is monotone and leaves 59
    unchanged, as that of binary64 does): the session has a detected scam and
    is not finalized, the agent has taken at least five turns, and either it
    has taken twelve or a first-scam stamp is recorded and lies more than 59
    seconds back.  Without a stamp, only the twelve turns finalize. *)
Theorem should_finalize_requires (rnd : Q -> Q) (state : SessionState) (now : Q) :
  (forall x y : Q, x <= y -> rnd x <= rnd y)%Q ->
  (rnd 59 == 59)%Q ->
  should_finalize_rounded rnd state now = true ->
  scam_detected state = true
  /\ finalized state = false
  /\ (5 <= agent_turns state)%Z
  /\ ((12 <= agent_turns state)%Z
      \/ exists t, first_scam_timestamp state = Some t /\ (t + 59 < now)%Q).
Proof.
  intros Hmono Hwhole.
  rewrite should_finalize_rounded_cases. cbv zeta.
  destruct (finalized state), (scam_detected state); simpl; try discriminate.
  intros H. split; [reflexivity|]. split; [reflexivity|].
  assert (Hlong : forall b,
            b && match first_scam_timestamp state with
                 | Some t => Qle_bool 60 (rnd (now - t)%Q)
                 | None => false
                 end = true ->
            b = true /\ exists t, first_scam_timestamp state = Some t /\ (t + 59 < now)%Q).
  { intros b Hb. apply andb_true_iff in Hb as [Hb1 Hb2]. split; [exact Hb1|].
    destruct (first_scam_timestamp state) as [t|]; [|discriminate].
    exists t. split; [reflexivity|]. apply Qle_bool_iff in Hb2.
    destruct (Qlt_le_dec (t + 59) now) as [Hlt|Hge]; [exact Hlt|exfalso].
    assert (Hd : (now - t <= 59)%Q) by lra.
    apply Hmono in Hd. rewrite Hwhole in Hd. lra. }
  apply orb_true_iff in H as [H|H]; [apply orb_true_iff in H as [H|H];
                                     [apply orb_true_iff in H as [H|H]|]|].
  - apply Z.leb_le in H. split; [lia|now left].
  - apply Hlong in H as [H Ht]. split; [|now right].
    repeat (apply andb_true_iff in H as [H ?]). apply Z.leb_le. assumption.
  - apply Hlong in H as [H Ht]. split; [|now right].
    apply andb_true_iff in H as [_ H]. apply Z.leb_le in H. lia.
  - apply Hlong in H as [H Ht]. split; [|now right].
    apply andb_true_iff in H as [_ H]. apply Z.leb_le in H. lia.
Qed.

Lemma should_finalize_requires_witness :
  should_finalize_rounded round_near_60 stamped_session 60 = true
  /\ exists t, first_scam_timestamp stamped_session = Some t /\ (t + 59 < 60)%Q.
Proof.
  assert (H : should_finalize_rounded round_near_60 stamped_session 60 = true)
    by (vm_compute; reflexivity).
  split; [exact H|].
  destruct (should_finalize_requires round_near_60 stamped_session 60
              round_near_60_monotone round_near_60_whole H)
    as (_ & _ & _ & [Hturns|Ht]); [|exact Ht].
  simpl in Hturns. lia.
Defined.

(** X26.  Finalizing is stable under progress: when a session is to be
    finalized, so is every later state of it (no fewer turns, messages,
    categories or captured identifiers) at every later clock reading. *)
Theorem should_finalize_progress (a b : SessionState) (now1 now2 : Q) :
  session_progress a b -> (now1 <= now2)%Q ->
  should_finalize a now1 = true -> should_finalize b now2 = true.
Proof.
  intros (Hf & Hd & Ht & Hm & Hturn & Hact & Hpay) Hnow.
  rewrite !should_finalize_cases. cbv zeta. rewrite <- Hf, <- Hd, <- Ht.
  destruct (finalized a), (scam_detected a); simpl; try discriminate.
  set (l1 := match first_scam_timestamp a with
             | Some t => Qle_bool 60 (now1 - t) | None => false end).
  set (l2 := match first_scam_timestamp a with
             | Some t => Qle_bool 60 (now2 - t) | None => false end).
  assert (Hl : l1 = true -> l2 = true).
  { unfold l1, l2. destruct (first_scam_timestamp a); [|discriminate].
    now apply elapsed_later. }
  rewrite !orb_true_iff, !andb_true_iff, !Z.leb_le.
  intros [[[H|H]|H]|H].
  - left. left. left. lia.
  - left. left. right. intuition lia.
  - left. right. intuition lia.
  - right. intuition lia.
Qed.

Lemma should_finalize_progress_witness :
  should_finalize later_session 300 = true.
Proof.
  apply (should_finalize_progress earlier_session later_session 160 300).
  - repeat split; simpl; auto; lia.
  - unfold Qle; simpl; lia.
  - reflexivity.
Defined.
